(** * Dataset categories of deepdoctection: [datasets/info.py]

    A shallow embedding of [_get_dict], of the class [DatasetCategories]
    and of [get_merged_categories], followed by the properties of the
    category bookkeeping that the description of the component states.

    Python values are modelled as follows.
    - [str] is [string]; [List[str]] is [list string].
    - A [dict] with string keys is an association list in insertion order.
      Python keeps that order, and the code depends on it
      ([list(d.keys())], [for key, val in d.items()], iteration over a
      dict built by a comprehension).
    - A [set] is the list of the elements put into it; the order in which
      Python iterates a set is not specified, so it is a parameter
      [set_iter] of the functions that iterate one, and the properties
      hold for every order ([set_order]).
    - A call that may raise returns a [result].
    - The attribute [_categories_filter_update] exists only after it has
      been assigned ([hasattr]); it is an [option] field. *)

From Stdlib Require Import List String Ascii Bool Arith ZArith Lia Permutation.
From Stdlib Require Import Decimal DecimalString DecimalNat.
Import ListNotations.
Open Scope string_scope.
Open Scope list_scope.

Set Implicit Arguments.

(** ** Python dictionaries with string keys *)

Module Dict.

Definition t (V : Type) : Type := list (string * V).

(** [d.get(k)] *)
Fixpoint get {V} (k : string) (d : t V) : option V :=
  match d with
  | [] => None
  | (k', v) :: d' => if String.eqb k k' then Some v else get k d'
  end.

(** [d.get(k, dflt)] *)
Definition get_default {V} (k : string) (dflt : V) (d : t V) : V :=
  match get k d with
  | Some v => v
  | None => dflt
  end.

(** [d[k] = v]: an existing key keeps its place, a new key goes last. *)
Fixpoint set {V} (k : string) (v : V) (d : t V) : t V :=
  match d with
  | [] => [(k, v)]
  | (k', v') :: d' =>
      if String.eqb k k' then (k', v) :: d' else (k', v') :: set k v d'
  end.

(** [d.keys()], also the order of [for k in d]. *)
Definition keys {V} (d : t V) : list string := map fst d.

(** [{key(x): val(x) for x in xs}] *)
Definition comprehension {X V} (key : X -> string) (val : X -> V)
    (xs : list X) : t V :=
  fold_left (fun d x => set (key x) (val x) d) xs [].

End Dict.

(** [x in l] for a list of strings. *)
Definition mem_list (x : string) (l : list string) : bool :=
  existsb (String.eqb x) l.

(** ** Exceptions and results *)

Inductive exn : Type :=
| IndexError (msg : string)
| KeyError (key : string)
| AssertionError (msg : string).

(** The name of the exception's class. *)
Definition exn_name (e : exn) : string :=
  match e with
  | IndexError _ => "IndexError"
  | KeyError _ => "KeyError"
  | AssertionError _ => "AssertionError"
  end.

Inductive result (A : Type) : Type :=
| Ok (a : A)
| Raise (e : exn).

Arguments Ok {A} a.
Arguments Raise {A} e.

Definition bind {A B} (r : result A) (f : A -> result B) : result B :=
  match r with
  | Ok a => f a
  | Raise e => Raise e
  end.

Notation "x <- r ;; k" := (bind r (fun x => k))
  (at level 61, r at next level, right associativity).

(** A [for] loop whose body may raise: the first exception ends it. *)
Fixpoint for_each {X S} (body : S -> X -> result S) (xs : list X) (s : S)
    : result S :=
  match xs with
  | [] => Ok s
  | x :: xs' => s' <- body s x ;; for_each body xs' s'
  end.

(** [d[k]] *)
Definition subscript {V} (d : Dict.t V) (k : string) : result V :=
  match Dict.get k d with
  | Some v => Ok v
  | None => Raise (KeyError k)
  end.

(** ** [str] on the indices produced by [enumerate] *)

Definition str (k : nat) : string :=
  NilEmpty.string_of_uint (Nat.to_uint k).

(** [enumerate(l, starts_with)] *)
Fixpoint enumerate {A} (l : list A) (starts_with : nat) : list (nat * A) :=
  match l with
  | [] => []
  | x :: l' => (starts_with, x) :: enumerate l' (S starts_with)
  end.

(** ** [_get_dict]

    [starts_with] is the start of the index count.  Every call in the
    module leaves it at its default 1; the model takes a natural number,
    and the properties of the registry use [_get_dict] at that start. *)

Definition _get_dict (l : list string) (name_as_key : bool)
    (starts_with : nat) : Dict.t string :=
  if name_as_key
  then Dict.comprehension (fun kv => snd kv) (fun kv => str (fst kv))
         (enumerate l starts_with)
  else Dict.comprehension (fun kv => str (fst kv)) (fun kv => snd kv)
         (enumerate l starts_with).

(** ** [DatasetCategories] *)

Definition sub_categories : Type := Dict.t (Dict.t (list string)).

Record DatasetCategories : Type := mkDatasetCategories {
  init_categories : list string;
  init_sub_categories : sub_categories;
  _categories_update : list string;
  _cat_to_sub_cat : option (Dict.t string);
  _categories_filter_update : option (list string)
}.

(** [__post_init__], run by the generated [__init__] once the two
    declared fields are stored.  [_categories_update] is bound to the
    very list object of [init_categories]; no statement of the module
    changes a list in place, so sharing it is not observable and the
    field holds the value. *)
Definition __post_init__ (ic : list string) (isc : sub_categories)
    : DatasetCategories :=
  {| init_categories := ic;
     init_sub_categories := isc;
     _categories_update := ic;
     _cat_to_sub_cat := None;
     _categories_filter_update := None |}.

(** The call [DatasetCategories(init_categories=ic, init_sub_categories=isc)]. *)
Definition new_DatasetCategories (ic : list string) (isc : sub_categories)
    : result DatasetCategories :=
  Ok (__post_init__ ic isc).

(** What [get_categories] returns: a dict or a list. *)
Inductive categories_view : Type :=
| AsDict (d : Dict.t string)
| AsList (l : list string).

Definition get_categories (self : DatasetCategories)
    (as_dict name_as_key init filtered : bool) : categories_view :=
  if init then
    if as_dict then AsDict (_get_dict (init_categories self) name_as_key 1)
    else AsList (init_categories self)
  else if filtered then
    if as_dict then
      match _categories_filter_update self with
      | Some l => AsDict (_get_dict l name_as_key 1)
      | None => AsDict (_get_dict (_categories_update self) name_as_key 1)
      end
    else
      match _categories_filter_update self with
      | Some l => AsList l
      | None => AsList (_categories_update self)
      end
  else if as_dict then AsDict (_get_dict (_categories_update self) name_as_key 1)
  else AsList (_categories_update self).

(** Iterating over what [get_categories] returned ([for cat in view]):
    the elements of a list, the keys of a dict. *)
Definition iter_view (v : categories_view) : list string :=
  match v with
  | AsDict d => Dict.keys d
  | AsList l => l
  end.

(** [cat in view] *)
Definition mem_view (cat : string) (v : categories_view) : bool :=
  mem_list cat (iter_view v).

(** An argument of type [Union[str, List[str]]]. *)
Inductive str_or_list : Type :=
| Str (s : string)
| Lst (l : list string).

(** The message of the assertion in [get_sub_categories]. *)
Definition not_in_categories_msg (cat : string) : string :=
  cat ++ " not in categories, maybe has been replaced with sub category".

(** The innermost loop of [get_sub_categories]: [for pos in possible_sub_cats]. *)
Definition scan_possible_sub_cats (self : DatasetCategories)
    (cat key val : string) (possible_sub_cats : Dict.t (list string))
    (sub_cat : Dict.t (list string)) : result (Dict.t (list string)) :=
  for_each
    (fun sub_cat pos =>
       if String.eqb pos val then
         sub_cat_dict_key <- subscript (init_sub_categories self) key ;;
         match Dict.get cat sub_cat_dict_key with
         | None => Ok (Dict.set cat [] sub_cat)
         | Some sub_cat_list => Ok (Dict.set cat sub_cat_list sub_cat)
         end
       else Ok sub_cat)
    (Dict.keys possible_sub_cats) sub_cat.

(** The loop [for key, val in self._cat_to_sub_cat.items()]. *)
Definition scan_cat_to_sub_cat (self : DatasetCategories) (cat : string)
    (items : Dict.t string) (sub_cat : Dict.t (list string))
    : result (Dict.t (list string)) :=
  for_each
    (fun sub_cat kv =>
       possible_sub_cats <- subscript (init_sub_categories self) (fst kv) ;;
       scan_possible_sub_cats self cat (fst kv) (snd kv) possible_sub_cats sub_cat)
    items sub_cat.

(** [if self._cat_to_sub_cat:] holds for a dict that is not [None] and
    has an entry. *)
Definition truthy (o : option (Dict.t string)) : bool :=
  match o with
  | Some (_ :: _) => true
  | _ => false
  end.

(** [self._cat_to_sub_cat.items()], reached only under [truthy]. *)
Definition items (o : option (Dict.t string)) : Dict.t string :=
  match o with
  | Some d => d
  | None => []
  end.

(** The body of the loop [for cat in categories]; the [assert] is
    executed (the interpreter does not run with [-O]). *)
Definition sub_categories_of (self : DatasetCategories)
    (sub_cat : Dict.t (list string)) (cat : string)
    : result (Dict.t (list string)) :=
  if mem_view cat (get_categories self false false false true) then
    match Dict.get cat (init_sub_categories self) with
    | None =>
        if truthy (_cat_to_sub_cat self)
        then scan_cat_to_sub_cat self cat (items (_cat_to_sub_cat self)) sub_cat
        else Ok sub_cat
    | Some sub_cat_dict => Ok (Dict.set cat (Dict.keys sub_cat_dict) sub_cat)
    end
  else Raise (AssertionError (not_in_categories_msg cat)).

Definition get_sub_categories (self : DatasetCategories)
    (categories : option str_or_list) : result (Dict.t (list string)) :=
  let categories :=
    match categories with
    | Some (Str s) => [s]
    | Some (Lst l) => l
    | None => iter_view (get_categories self false false false true)
    end in
  for_each (sub_categories_of self) categories [].

(** [set_cat_to_sub_cat] returns nothing and cannot raise: it maps the
    object before the call to the object after it.  The logger call has
    no effect on the object. *)
Definition set_cat_to_sub_cat (self : DatasetCategories)
    (cat_to_sub_cat : Dict.t string) : DatasetCategories :=
  let self1 :=
    {| init_categories := init_categories self;
       init_sub_categories := init_sub_categories self;
       _categories_update := init_categories self;
       _cat_to_sub_cat := _cat_to_sub_cat self;
       _categories_filter_update := _categories_filter_update self |} in
  let categories := get_categories self1 true true false false in
  let cats_or_sub_cats :=
    map (fun cat =>
           Dict.get_default (Dict.get_default cat cat cat_to_sub_cat) [cat]
             (Dict.get_default cat [(cat, [cat])] (init_sub_categories self1)))
        (iter_view categories) in
  {| init_categories := init_categories self1;
     init_sub_categories := init_sub_categories self1;
     _categories_update := List.concat cats_or_sub_cats;
     _cat_to_sub_cat := Some cat_to_sub_cat;
     _categories_filter_update := _categories_filter_update self1 |}.

Definition filter_categories (self : DatasetCategories)
    (categories : str_or_list) : DatasetCategories :=
  let categories :=
    match categories with
    | Str s => [s]
    | Lst l => l
    end in
  {| init_categories := init_categories self;
     init_sub_categories := init_sub_categories self;
     _categories_update := _categories_update self;
     _cat_to_sub_cat := _cat_to_sub_cat self;
     _categories_filter_update :=
       Some (filter (fun cat => mem_list cat categories) (_categories_update self)) |}.

(** The property [cat_to_sub_cat]. *)
Definition cat_to_sub_cat (self : DatasetCategories) : option (Dict.t string) :=
  _cat_to_sub_cat self.

Definition is_cat_to_sub_cat (self : DatasetCategories) : bool :=
  match _cat_to_sub_cat self with
  | Some _ => true
  | None => false
  end.

Definition is_filtered (self : DatasetCategories) : bool :=
  match _categories_filter_update self with
  | Some _ => true
  | None => false
  end.

(** ** [get_merged_categories] *)

(** [t[0]]; [msg] is the message of the [IndexError] of the sequence type. *)
Definition index0 {A} (msg : string) (t : list A) : result A :=
  match t with
  | [] => Raise (IndexError msg)
  | x :: _ => Ok x
  end.

(** [set(first).intersection( *others)]: the elements of [first] that are
    in every one of [others]. *)
Definition set_intersection (first : list string) (others : list (list string))
    : list string :=
  filter (fun x => forallb (mem_list x) others) first.

(** The first loop of [get_merged_categories]; [acc] is its local list
    [init_categories]. *)
Definition merge_init_categories (categories : list DatasetCategories)
    : list string :=
  fold_left
    (fun acc cat =>
       fold_left
         (fun acc label => if mem_list label acc then acc else acc ++ [label])
         (init_categories cat) acc)
    categories [].

Section Merge.

(** The order in which a set holding the given elements is iterated. *)
Variable set_iter : list string -> list string.

(** [val = set()], [val.update(...)] for each input, [list(val)]. *)
Definition merge_sub_cat_values (categories : list DatasetCategories)
    (key sub_cat_key : string) : result (list string) :=
  val <- for_each
           (fun val cat =>
              d <- subscript (init_sub_categories cat) key ;;
              l <- subscript d sub_cat_key ;;
              Ok (val ++ l))
           categories [] ;;
  Ok (set_iter val).

(** The body of the loop [for key in intersect_sub_cat_keys], up to the
    value stored under [key]. *)
Definition merge_sub_cats_of_key (categories : list DatasetCategories)
    (key : string) : result (Dict.t (list string)) :=
  sub_cat_per_key <-
    for_each (fun acc cat =>
                d <- subscript (init_sub_categories cat) key ;; Ok (acc ++ [d]))
             categories [] ;;
  first <- index0 "list index out of range" sub_cat_per_key ;;
  let intersect_sub_cat_per_key :=
    set_intersection (Dict.keys first) (map (@Dict.keys _) (tl sub_cat_per_key)) in
  for_each
    (fun intersect_init_sub_cat_values sub_cat_key =>
       val <- merge_sub_cat_values categories key sub_cat_key ;;
       Ok (Dict.set sub_cat_key val intersect_init_sub_cat_values))
    (set_iter intersect_sub_cat_per_key) [].

Definition get_merged_categories (categories : list DatasetCategories)
    : result DatasetCategories :=
  let init_categories_ := merge_init_categories categories in
  first <- index0 "tuple index out of range" categories ;;
  let intersect_sub_cat_keys :=
    set_intersection
      (Dict.keys (init_sub_categories first))
      (map (fun cat => Dict.keys (init_sub_categories cat)) (tl categories)) in
  intersect_init_sub_cat <-
    for_each
      (fun intersect_init_sub_cat key =>
         intersect_init_sub_cat_values <- merge_sub_cats_of_key categories key ;;
         Ok (Dict.set key intersect_init_sub_cat_values intersect_init_sub_cat))
      (set_iter intersect_sub_cat_keys) [] ;;
  let categories_update :=
    set_iter (List.concat
      (map (fun cat => iter_view (get_categories cat false false false false))
           categories)) in
  let categories_filtered :=
    set_iter (List.concat
      (map (fun cat => iter_view (get_categories cat false false false true))
           categories)) in
  merged_categories <- new_DatasetCategories init_categories_ intersect_init_sub_cat ;;
  Ok {| init_categories := init_categories merged_categories;
        init_sub_categories := init_sub_categories merged_categories;
        _categories_update := categories_update;
        _cat_to_sub_cat := _cat_to_sub_cat merged_categories;
        _categories_filter_update := Some categories_filtered |}.

End Merge.

(** ** Sequences of calls of the two mutators *)

Inductive call : Type :=
| FilterCategories (categories : str_or_list)
| SetCatToSubCat (cat_to_sub_cat : Dict.t string).

Definition do_call (self : DatasetCategories) (c : call) : DatasetCategories :=
  match c with
  | FilterCategories categories => filter_categories self categories
  | SetCatToSubCat m => set_cat_to_sub_cat self m
  end.

Definition do_calls (self : DatasetCategories) (cs : list call) : DatasetCategories :=
  fold_left do_call cs self.

(** * Other modules

    ** [unpackbits_masks] of [extern/tp/tpfrcnn/modeling/model_mrcnn.py]

    A tensor of shape N x H x W is a list of N lists of H rows of W
    elements; an element of dtype [uint8] is an integer from 0 to 255.
    The assertion on the dtype holds by the type of the argument. *)

(** [tf.constant((128, 64, 32, 16, 8, 4, 2, 1), dtype=tf.uint8)] *)
Definition bits : list Z := [128; 64; 32; 16; 8; 4; 2; 1]%Z.

(** [tf.bitwise.bitwise_and(tf.expand_dims(masks, -1), bits) > 0] at one
    element of [masks]: the new last axis has one entry for each of [bits]. *)
Definition unpack_element (m : Z) : list bool :=
  map (fun bit => (0 <? Z.land m bit)%Z) bits.

(** The reshape to [N, H, 8 * W] merges the last two axes in row-major
    order: in every row the entries of the elements follow each other. *)
Definition unpackbits_masks (masks : list (list (list Z)))
    : list (list (list bool)) :=
  map (map (fun row => List.concat (map unpack_element row))) masks.

(** ** [get_tensorflow_requirement] of [utils/file_utils.py]

    What the function reads from the installation and from the library
    [packaging] is a parameter: the module flag [_TF_AVAILABLE];
    [importlib_metadata.version], with [None] for
    [PackageNotFoundError]; [version.parse], with [None] where it raises
    [InvalidVersion]; and the order [<] of the parsed versions.  The
    calls of [version.parse] are outside the [try], so the function
    raises what they raise. *)

Definition _TF_ERR_MSG : string :=
  "Tensorflow >=2.4.1 must be installed: https://www.tensorflow.org/install/gpu".

Definition candidates : list string :=
  ["tensorflow"; "tensorflow-cpu"; "tensorflow-gpu"; "tf-nightly";
   "tf-nightly-cpu"; "tf-nightly-gpu"; "intel-tensorflow";
   "intel-tensorflow-avx512"; "tensorflow-rocm"; "tensorflow-macos"].

(** The outcome of a call of [get_tensorflow_requirement]: the triple it
    returns, or the [InvalidVersion] raised for a version text. *)
Inductive requirement_outcome : Type :=
| Returns (requirement : string * bool * string)
| RaisesInvalidVersion (text : string).

Section TensorflowRequirement.

Variable _TF_AVAILABLE : bool.
Variable version : string -> option string.
Variable Version : Type.
Variable parse : string -> option Version.
Variable version_lt : Version -> Version -> bool.

Definition tf_available : bool := _TF_AVAILABLE.

(** The loop [for pkg in candidates] with its [try], [break] and
    [except]; [tf_version] is the value the variable has before the loop. *)
Fixpoint find_tf_version (pkgs : list string) (tf_version : string) : string :=
  match pkgs with
  | [] => tf_version
  | pkg :: pkgs' =>
      match version pkg with
      | Some v => v
      | None => find_tf_version pkgs' tf_version
      end
  end.

(** The left operand of [<] is parsed before the right one. *)
Definition get_tensorflow_requirement : requirement_outcome :=
  if tf_available then
    let tf_version := find_tf_version candidates "0.0" in
    let _tf_version_available := negb (String.eqb tf_version "0.0") in
    if _tf_version_available then
      match parse tf_version with
      | None => RaisesInvalidVersion tf_version
      | Some parsed =>
          match parse "2.4.1" with
          | None => RaisesInvalidVersion "2.4.1"
          | Some required =>
              if version_lt parsed required
              then Returns ("tensorflow", false, _TF_ERR_MSG)
              else Returns ("tensorflow", true, _TF_ERR_MSG)
          end
      end
    else Returns ("tensorflow", false, _TF_ERR_MSG)
  else Returns ("tensorflow", false, _TF_ERR_MSG).

End TensorflowRequirement.

(** * Vocabulary of the properties

    Definitions used to state and to prove the properties; none of them
    is a function of [info.py]. *)

Unset Implicit Arguments.

(** The names a [Union[str, List[str]]] argument asks for. *)
Definition requested (x : str_or_list) : list string :=
  match x with
  | Str s => [s]
  | Lst l => l
  end.

(** [l1] is obtained from [l2] by dropping elements. *)
Inductive subsequence {A : Type} : list A -> list A -> Prop :=
| subsequence_nil : subsequence [] []
| subsequence_drop x l1 l2 : subsequence l1 l2 -> subsequence l1 (x :: l2)
| subsequence_keep x l1 l2 : subsequence l1 l2 -> subsequence (x :: l1) (x :: l2).

(** The view that [get_sub_categories] checks names against, and lists
    when it is given no name. *)
Definition current_view (self : DatasetCategories) : list string :=
  iter_view (get_categories self false false false true).

Definition is_KeyError (e : exn) : Prop := exists key, e = KeyError key.

(** Some key of [init_sub_categories] is not in [init_categories]. *)
Definition references_unknown_category (ic : list string) (isc : sub_categories)
    : bool :=
  existsb (fun cat => negb (mem_list cat ic)) (Dict.keys isc).

(** Some sub-category of [init_sub_categories] has no values. *)
Definition has_empty_value_list (isc : sub_categories) : bool :=
  existsb (fun entry =>
             existsb (fun sub => match snd sub with [] => true | _ => false end)
                     (snd entry))
          isc.

(** The block that replaces [cat], in the words of the description:
    the values of the chosen sub-category when [cat] is listed in the
    mapping and its definition has the chosen key, else [cat] alone. *)
Definition substitution_block (isc : sub_categories) (m : Dict.t string)
    (cat : string) : list string :=
  match Dict.get cat m with
  | Some chosen =>
      match Dict.get cat isc with
      | Some d =>
          match Dict.get chosen d with
          | Some values => values
          | None => [cat]
          end
      | None => [cat]
      end
  | None => [cat]
  end.

(** The listed category [fst kv] has the chosen key [snd kv] in its
    definition. *)
Definition chosen_is_defined (isc : sub_categories) (kv : string * string) : bool :=
  mem_list (snd kv) (Dict.keys (Dict.get_default (fst kv) [] isc)).

(** What one listed category does to the entry of [cat] in the result of
    [get_sub_categories]. *)
Definition scan_step (isc : sub_categories) (cat : string)
    (sub_cat : Dict.t (list string)) (kv : string * string)
    : Dict.t (list string) :=
  if chosen_is_defined isc kv
  then Dict.set cat (Dict.get_default cat [] (Dict.get_default (fst kv) [] isc)) sub_cat
  else sub_cat.

(** Stable de-duplication, in the words of the description: every
    element once, in the order of first appearance. *)
Fixpoint stable_dedup (l : list string) : list string :=
  match l with
  | [] => []
  | x :: l' => x :: filter (fun y => negb (String.eqb y x)) (stable_dedup l')
  end.

(** Appending a label unless it is there already. *)
Definition add_label (acc : list string) (label : string) : list string :=
  if mem_list label acc then acc else acc ++ [label].

(** What is known of the order in which a set is iterated: every element
    once, and nothing else. *)
Definition set_order (set_iter : list string -> list string) : Prop :=
  forall l, NoDup (set_iter l) /\ forall x, In x (set_iter l) <-> In x l.

(** The definition of [key] in an input, and the values of [sub_cat_key]
    in it; empty where the input has none. *)
Definition definition_of (key : string) (c : DatasetCategories)
    : Dict.t (list string) :=
  Dict.get_default key [] (init_sub_categories c).

Definition values_of (key sub_cat_key : string) (c : DatasetCategories)
    : list string :=
  Dict.get_default sub_cat_key [] (definition_of key c).

(** The categories that have a definition in every input. *)
Definition shared_categories (c : DatasetCategories) (cs : list DatasetCategories)
    : list string :=
  set_intersection (Dict.keys (init_sub_categories c))
    (map (fun c' => Dict.keys (init_sub_categories c')) cs).

(** The sub-categories of [key] that every input defines. *)
Definition shared_sub_categories (key : string) (c : DatasetCategories)
    (cs : list DatasetCategories) : list string :=
  set_intersection (Dict.keys (definition_of key c))
    (map (fun c' => Dict.keys (definition_of key c')) cs).

(** The sub-category definitions of the merged registry, given the
    iteration order of sets. *)
Definition merged_values (set_iter : list string -> list string)
    (key sub_cat_key : string) (all : list DatasetCategories) : list string :=
  set_iter (List.concat (map (values_of key sub_cat_key) all)).

Definition merged_definition (set_iter : list string -> list string)
    (c : DatasetCategories) (cs : list DatasetCategories) (key : string)
    : Dict.t (list string) :=
  map (fun sub_cat_key =>
         (sub_cat_key, merged_values set_iter key sub_cat_key (c :: cs)))
      (set_iter (shared_sub_categories key c cs)).

Definition merged_sub_categories (set_iter : list string -> list string)
    (c : DatasetCategories) (cs : list DatasetCategories) : sub_categories :=
  map (fun key => (key, merged_definition set_iter c cs key))
      (set_iter (shared_categories c cs)).

(** The kind of a call, and the mapping of the last substitution of a
    sequence of calls. *)
Definition is_filter_call (c : call) : bool :=
  match c with
  | FilterCategories _ => true
  | SetCatToSubCat _ => false
  end.

Definition is_substitution_call (c : call) : bool :=
  match c with
  | FilterCategories _ => false
  | SetCatToSubCat _ => true
  end.

Fixpoint last_substitution (cs : list call) : option (Dict.t string) :=
  match cs with
  | [] => None
  | c :: cs' =>
      match last_substitution cs' with
      | Some m => Some m
      | None =>
          match c with
          | SetCatToSubCat m => Some m
          | FilterCategories _ => None
          end
      end
  end.

(** [np.packbits] with its default bit order on eight booleans: the first
    one is the most significant bit. *)
Definition pack_element (bs : list bool) : Z :=
  fold_left (fun acc (b : bool) => (2 * acc + (if b then 1 else 0))%Z) bs 0%Z.

(** [np.packbits] along a row: eight booleans give one element; a last
    group of fewer than eight is padded with zeros. *)
Fixpoint packbits (bs : list bool) : list Z :=
  match bs with
  | [] => []
  | b7 :: b6 :: b5 :: b4 :: b3 :: b2 :: b1 :: b0 :: bs' =>
      pack_element [b7; b6; b5; b4; b3; b2; b1; b0] :: packbits bs'
  | _ => [pack_element (firstn 8 (bs ++ repeat false 8))]
  end.

(** * Properties *)

(** ** Membership and dictionaries *)

Lemma mem_list_In (x : string) (l : list string) :
  mem_list x l = true <-> In x l.
Proof.
  unfold mem_list. rewrite existsb_exists. split.
  - intros (y & Hy & Heq). apply String.eqb_eq in Heq. now subst.
  - intros H. exists x. split; [assumption | apply String.eqb_refl].
Qed.

Lemma mem_list_not_In (x : string) (l : list string) :
  mem_list x l = false <-> ~ In x l.
Proof.
  rewrite <- mem_list_In. destruct (mem_list x l); split; congruence.
Qed.

Lemma mem_list_app (x : string) (l1 l2 : list string) :
  mem_list x (l1 ++ l2) = mem_list x l1 || mem_list x l2.
Proof. unfold mem_list. apply existsb_app. Qed.

Module DictFacts.
Import Dict.

Section WithValues.
Context {V : Type}.
Implicit Types (d : t V) (k : string) (v : V).

Lemma get_In_keys k d : get k d <> None <-> In k (keys d).
Proof.
  induction d as [|[k' v'] d IH]; simpl.
  - split; [congruence | tauto].
  - destruct (String.eqb_spec k k') as [->|Hne].
    + split; [auto | congruence].
    + rewrite IH. split; [auto | intros [H|H]; [congruence | assumption]].
Qed.

Lemma get_Some_In_keys k d v : get k d = Some v -> In k (keys d).
Proof. intros H. apply get_In_keys. congruence. Qed.

Lemma In_keys_get k d : In k (keys d) -> exists v, get k d = Some v.
Proof.
  intros H. apply get_In_keys in H.
  destruct (get k d) as [v|]; [now exists v | congruence].
Qed.

Lemma get_None_keys k d : get k d = None <-> ~ In k (keys d).
Proof.
  rewrite <- get_In_keys. destruct (get k d); split; try congruence.
  intros H. exfalso. apply H. congruence.
Qed.

Lemma get_Some_In k d v : get k d = Some v -> In (k, v) d.
Proof.
  induction d as [|[k' v'] d IH]; simpl; [congruence|].
  destruct (String.eqb_spec k k') as [->|Hne].
  - intros [= ->]. now left.
  - intros H. right. now apply IH.
Qed.

Lemma set_fresh k v d : ~ In k (keys d) -> set k v d = d ++ [(k, v)].
Proof.
  induction d as [|[k' v'] d IH]; simpl; intros H; [reflexivity|].
  destruct (String.eqb_spec k k') as [->|Hne].
  - exfalso. apply H. now left.
  - rewrite IH; [reflexivity | tauto].
Qed.

Lemma keys_set k v d :
  keys (set k v d) = if mem_list k (keys d) then keys d else keys d ++ [k].
Proof.
  induction d as [|[k' v'] d IH]; simpl; [reflexivity|].
  destruct (String.eqb_spec k k') as [->|Hne]; simpl; [reflexivity|].
  rewrite IH. now destruct (mem_list k (keys d)).
Qed.

Lemma get_set_same k v d : get k (set k v d) = Some v.
Proof.
  induction d as [|[k' v'] d IH]; simpl.
  - now rewrite String.eqb_refl.
  - destruct (String.eqb_spec k k') as [->|Hne]; simpl.
    + now rewrite String.eqb_refl.
    + destruct (String.eqb_spec k k'); [contradiction | assumption].
Qed.

Lemma get_set_other k k0 v d : k0 <> k -> get k0 (set k v d) = get k0 d.
Proof.
  intros Hne. induction d as [|[k' v'] d IH]; simpl.
  - destruct (String.eqb_spec k0 k); [contradiction | reflexivity].
  - destruct (String.eqb_spec k k') as [->|Hne']; simpl.
    + destruct (String.eqb_spec k0 k'); [contradiction | reflexivity].
    + now rewrite IH.
Qed.

(** Storing fresh keys one after the other lists them in that order. *)
Lemma store_fresh {X} (key : X -> string) (val : X -> V) (xs : list X) d :
  NoDup (keys d ++ map key xs) ->
  fold_left (fun d x => set (key x) (val x) d) xs d
  = d ++ map (fun x => (key x, val x)) xs.
Proof.
  revert d. induction xs as [|x xs IH]; intros d Hnd; simpl.
  - now rewrite app_nil_r.
  - assert (Hx : ~ In (key x) (keys d)).
    { intros Hin. apply NoDup_remove_2 in Hnd. apply Hnd.
      apply in_or_app. now left. }
    rewrite (set_fresh _ _ _ Hx). rewrite IH.
    + now rewrite <- app_assoc.
    + unfold keys. rewrite map_app. simpl. rewrite <- app_assoc. exact Hnd.
Qed.

Lemma comprehension_fresh {X} (key : X -> string) (val : X -> V) (xs : list X) :
  NoDup (map key xs) ->
  comprehension key val xs = map (fun x => (key x, val x)) xs.
Proof. intros H. unfold comprehension. now rewrite store_fresh. Qed.

End WithValues.
End DictFacts.

(** ** Indices *)

Example str_decimal : map str [1; 2; 9; 10; 123] = ["1"; "2"; "9"; "10"; "123"].
Proof. reflexivity. Qed.

Lemma str_inj (a b : nat) : str a = str b -> a = b.
Proof.
  unfold str. intros H.
  apply DecimalNat.Unsigned.to_uint_inj.
  assert (Hs : Some (Nat.to_uint a) = Some (Nat.to_uint b)).
  { rewrite <- (NilEmpty.usu (Nat.to_uint a)), <- (NilEmpty.usu (Nat.to_uint b)).
    now rewrite H. }
  now injection Hs.
Qed.

Lemma enumerate_combine {A} (l : list A) (s : nat) :
  enumerate l s = combine (seq s (List.length l)) l.
Proof.
  revert s. induction l as [|x l IH]; intros s; simpl; [reflexivity|].
  now rewrite IH.
Qed.

Lemma map_fst_enumerate {A} (l : list A) (s : nat) :
  map fst (enumerate l s) = seq s (List.length l).
Proof.
  revert s. induction l as [|x l IH]; intros s; simpl; [reflexivity|].
  now rewrite IH.
Qed.

Lemma NoDup_map_str (l : list nat) : NoDup l -> NoDup (map str l).
Proof.
  induction 1 as [|x l Hx Hl IH]; simpl; constructor; [|assumption].
  rewrite in_map_iff. intros (y & Hy & Hin).
  apply str_inj in Hy. now subst.
Qed.

(** With indices as keys no two keys collide: the dict lists the
    elements of [l] in order under [str starts_with], [str (starts_with + 1)], ... *)
Lemma _get_dict_index_as_key (l : list string) (s : nat) :
  _get_dict l false s = combine (map str (seq s (List.length l))) l.
Proof.
  unfold _get_dict. rewrite DictFacts.comprehension_fresh.
  - revert s. induction l as [|x l IH]; intros s; simpl; [reflexivity|].
    now rewrite IH.
  - rewrite <- (map_map fst str), map_fst_enumerate.
    apply NoDup_map_str, seq_NoDup.
Qed.

(** ** What the mutators leave alone *)

Lemma do_call_init (self : DatasetCategories) (c : call) :
  init_categories (do_call self c) = init_categories self
  /\ init_sub_categories (do_call self c) = init_sub_categories self.
Proof. destruct c; simpl; auto. Qed.

Lemma do_calls_init (cs : list call) (self : DatasetCategories) :
  init_categories (do_calls self cs) = init_categories self
  /\ init_sub_categories (do_calls self cs) = init_sub_categories self.
Proof.
  unfold do_calls. revert self.
  induction cs as [|c cs IH]; intros self; simpl; [auto|].
  destruct (IH (do_call self c)) as [H1 H2].
  destruct (do_call_init self c) as [H3 H4].
  split; congruence.
Qed.

(** C3. For a registry built from [ic] (of length n), after any sequence
    of [filter_categories] and [set_cat_to_sub_cat] calls,
    [get_categories(as_dict=True, init=True)] is the dict that maps
    ["1"], ..., ["n"] to the elements of [ic] in their order, and
    [get_categories(as_dict=False, init=True)] is [ic] itself, whatever
    [filtered] (and, for the list, [name_as_key]) is. *)
Theorem get_categories_init_unaffected
    (ic : list string) (isc : sub_categories) (cs : list call)
    (name_as_key filtered : bool) :
  get_categories (do_calls (__post_init__ ic isc) cs) true false true filtered
  = AsDict (combine (map str (seq 1 (List.length ic))) ic)
  /\ get_categories (do_calls (__post_init__ ic isc) cs) false name_as_key true filtered
     = AsList ic.
Proof.
  destruct (do_calls_init cs (__post_init__ ic isc)) as [Hic _].
  simpl in Hic. unfold get_categories. rewrite Hic.
  split; [|reflexivity].
  now rewrite _get_dict_index_as_key.
Qed.

Example get_categories_init_example :
  get_categories
    (do_calls (__post_init__ ["cat1"; "cat2"] [("cat1", [("s", ["a"; "b"])])])
       [FilterCategories (Str "cat2"); SetCatToSubCat [("cat1", "s")];
        FilterCategories (Lst ["a"; "cat2"])])
    true false true true
  = AsDict [("1", "cat1"); ("2", "cat2")].
Proof. reflexivity. Qed.

(** ** Filtering *)

Lemma filter_subsequence {A} (p : A -> bool) (l : list A) :
  subsequence (filter p l) l.
Proof.
  induction l as [|x l IH]; simpl; [constructor|].
  destruct (p x); now constructor.
Qed.

(** C4. [filter_categories(X)] sets [_categories_filter_update] to the
    elements of the current [_categories_update] that are in [X], in the
    order of [_categories_update]: a subsequence of it holding exactly
    its names that [X] has.  It leaves [_categories_update],
    [init_categories], [init_sub_categories] and [_cat_to_sub_cat] as they
    were, and calling it again with the same [X] gives the same
    [_categories_filter_update]. *)
Theorem filter_categories_subsequence (self : DatasetCategories) (X : str_or_list) :
  exists flt,
    _categories_filter_update (filter_categories self X) = Some flt
    /\ flt = filter (fun cat => mem_list cat (requested X)) (_categories_update self)
    /\ subsequence flt (_categories_update self)
    /\ (forall cat, In cat flt <-> In cat (_categories_update self) /\ In cat (requested X))
    /\ _categories_update (filter_categories self X) = _categories_update self
    /\ init_categories (filter_categories self X) = init_categories self
    /\ init_sub_categories (filter_categories self X) = init_sub_categories self
    /\ _cat_to_sub_cat (filter_categories self X) = _cat_to_sub_cat self
    /\ _categories_filter_update (filter_categories (filter_categories self X) X)
       = Some flt.
Proof.
  exists (filter (fun cat => mem_list cat (requested X)) (_categories_update self)).
  assert (Hreq : forall Y, match Y with Str s => [s] | Lst l => l end = requested Y)
    by (intros []; reflexivity).
  unfold filter_categories; simpl. rewrite Hreq.
  split; [reflexivity|]. split; [reflexivity|].
  split; [apply filter_subsequence|].
  split.
  - intros cat. rewrite filter_In, mem_list_In. tauto.
  - repeat split; reflexivity.
Qed.

(** The second call overwrites the first: only the last request counts. *)
Lemma filter_categories_overwrites (self : DatasetCategories) (X Y : str_or_list) :
  _categories_filter_update (filter_categories (filter_categories self X) Y)
  = _categories_filter_update (filter_categories self Y).
Proof. reflexivity. Qed.

Example filter_after_substitution :
  get_categories
    (do_calls (__post_init__ ["cat1"; "cat2"] [("cat1", [("s", ["a"; "b"])])])
       [SetCatToSubCat [("cat1", "s")]; FilterCategories (Lst ["cat2"; "a"])])
    false false false true
  = AsList ["a"; "cat2"].
Proof. reflexivity. Qed.

(** ** Construction *)

(** C6 as stated fails: construction succeeds on a taxonomy whose
    sub-category definitions name a category that [init_categories] lacks
    and give a sub-category no values. *)
Lemma construction_accepts_unknown_and_empty :
  references_unknown_category ["cat1"] [("ghost", [("s", [])])] = true
  /\ has_empty_value_list [("ghost", [("s", [])])] = true
  /\ new_DatasetCategories ["cat1"] [("ghost", [("s", [])])]
     = Ok (__post_init__ ["cat1"] [("ghost", [("s", [])])])
  /\ ~ (exists e, new_DatasetCategories ["cat1"] [("ghost", [("s", [])])] = Raise e).
Proof.
  repeat split; intros [e He]; discriminate He.
Qed.

(** C6, amended. Construction checks nothing and never raises: for every
    [init_categories] and [init_sub_categories] it returns a registry
    that stores both, whose [_categories_update] equals
    [init_categories], with no substitution and no filter. *)
Theorem construction_always_succeeds (ic : list string) (isc : sub_categories) :
  exists self,
    new_DatasetCategories ic isc = Ok self
    /\ init_categories self = ic
    /\ init_sub_categories self = isc
    /\ _categories_update self = ic
    /\ get_categories self false false false false = AsList ic
    /\ is_cat_to_sub_cat self = false
    /\ is_filtered self = false.
Proof.
  exists (__post_init__ ic isc). repeat split.
Qed.

(** ** Merging nothing *)

(** C7 as stated fails: with no argument the merge raises, but the
    exception is not an [InvalidRequestError]. *)
Lemma merge_nothing_not_InvalidRequestError :
  ~ (exists e, get_merged_categories (nodup string_dec) [] = Raise e
               /\ exn_name e = "InvalidRequestError").
Proof.
  intros (e & He & Hname). simpl in He. injection He as <-. discriminate Hname.
Qed.

(** C7, amended. With no argument the merge raises [IndexError] when it
    reads [categories[0]]; it returns no registry. *)
Theorem merge_nothing_IndexError (set_iter : list string -> list string) :
  get_merged_categories set_iter [] = Raise (IndexError "tuple index out of range")
  /\ forall merged, get_merged_categories set_iter [] <> Ok merged.
Proof.
  split; [reflexivity | intros merged H; discriminate H].
Qed.

(** ** Substitution *)

Lemma map_snd_enumerate {A} (l : list A) (s : nat) :
  map snd (enumerate l s) = l.
Proof.
  revert s. induction l as [|x l IH]; intros s; simpl; [reflexivity|].
  now rewrite IH.
Qed.

Lemma _get_dict_name_as_key (l : list string) (s : nat) :
  NoDup l ->
  _get_dict l true s = combine l (map str (seq s (List.length l))).
Proof.
  intros Hnd. unfold _get_dict. rewrite DictFacts.comprehension_fresh.
  - clear Hnd. revert s. induction l as [|x l IH]; intros s; simpl; [reflexivity|].
    now rewrite IH.
  - now rewrite map_snd_enumerate.
Qed.

Lemma keys_get_dict_name_as_key (l : list string) (s : nat) :
  NoDup l -> Dict.keys (_get_dict l true s) = l.
Proof.
  intros Hnd. unfold _get_dict. rewrite DictFacts.comprehension_fresh.
  - unfold Dict.keys. rewrite map_map. simpl. apply map_snd_enumerate.
  - now rewrite map_snd_enumerate.
Qed.

(** The expression of the list comprehension agrees with
    [substitution_block] unless [cat] is not listed and its own
    definition has a sub-category that bears the name of [cat]. *)
Lemma comprehension_item_block (isc : sub_categories) (m : Dict.t string)
    (cat : string) :
  (Dict.get cat m = None ->
   forall d, Dict.get cat isc = Some d -> Dict.get cat d = None) ->
  Dict.get_default (Dict.get_default cat cat m) [cat]
    (Dict.get_default cat [(cat, [cat])] isc)
  = substitution_block isc m cat.
Proof.
  intros Hown. unfold substitution_block, Dict.get_default.
  unfold sub_categories, Dict.t in *.
  destruct (Dict.get cat m) as [chosen|] eqn:Em;
    destruct (Dict.get cat isc) as [d|] eqn:Ei; simpl.
  - reflexivity.
  - now destruct (String.eqb chosen cat).
  - now rewrite (Hown eq_refl d eq_refl).
  - now rewrite String.eqb_refl.
Qed.

(** Where no category collides with a sub-category of its own, and
    [init_categories] has no duplicates, [set_cat_to_sub_cat] computes the
    concatenation of the blocks, from [init_categories] alone, and stores
    the mapping. *)
Lemma set_cat_to_sub_cat_blocks (self : DatasetCategories) (m : Dict.t string) :
  NoDup (init_categories self) ->
  (forall cat, In cat (init_categories self) -> Dict.get cat m = None ->
     forall d, Dict.get cat (init_sub_categories self) = Some d ->
               Dict.get cat d = None) ->
  _categories_update (set_cat_to_sub_cat self m)
  = List.concat (map (substitution_block (init_sub_categories self) m)
                     (init_categories self))
  /\ cat_to_sub_cat (set_cat_to_sub_cat self m) = Some m.
Proof.
  intros Hnd Hown. split; [|reflexivity].
  unfold set_cat_to_sub_cat, get_categories, iter_view.
  cbn [_categories_update init_categories init_sub_categories].
  rewrite (keys_get_dict_name_as_key _ 1 Hnd).
  f_equal. apply map_ext_in. intros cat Hin.
  apply comprehension_item_block. now apply Hown.
Qed.

Example set_cat_to_sub_cat_example :
  let self := __post_init__ ["cat1"; "cat2"] [("cat1", [("s", ["a"; "b"])])] in
  _categories_update (set_cat_to_sub_cat self [("cat1", "s")]) = ["a"; "b"; "cat2"]
  /\ get_categories (set_cat_to_sub_cat self [("cat1", "s")]) true true false false
     = AsDict [("a", "1"); ("b", "2"); ("cat2", "3")].
Proof. split; reflexivity. Qed.

Example set_cat_to_sub_cat_empty_mapping :
  let self := __post_init__ ["cat1"; "cat2"] [("cat1", [("s", ["a"; "b"])])] in
  _categories_update (set_cat_to_sub_cat self []) = ["cat1"; "cat2"].
Proof. reflexivity. Qed.

(** C1. The claim gives an unlisted category the block that holds the
    category alone.  The code looks the category's own name up where the
    mapping has no entry, so a category whose definition has a
    sub-category of the same name is replaced although the mapping does
    not list it: with categories [table], [cell], the definition
    [cell: {cell: [header, body]}] and the empty mapping, the code stores
    [table, header, body] where the blocks of the claim give
    [table, cell]. *)
Theorem set_cat_to_sub_cat_replaces_unlisted :
  let self := __post_init__ ["table"; "cell"]
                [("cell", [("cell", ["header"; "body"])])] in
  Dict.get "cell" ([] : Dict.t string) = None
  /\ _categories_update (set_cat_to_sub_cat self []) = ["table"; "header"; "body"]
  /\ List.concat (map (substitution_block (init_sub_categories self) [])
                      (init_categories self))
     = ["table"; "cell"].
Proof. repeat split. Qed.

(** [set_cat_to_sub_cat] does not touch [_categories_filter_update]. *)
Lemma set_cat_to_sub_cat_keeps_filter (self : DatasetCategories) (m : Dict.t string) :
  _categories_filter_update (set_cat_to_sub_cat self m)
  = _categories_filter_update self
  /\ is_filtered (set_cat_to_sub_cat self m) = is_filtered self.
Proof. split; reflexivity. Qed.

(** C5. The claim has a substitution reset the filter state.  The code
    resets [_categories_update] only: after [filter_categories("cat1")]
    and then [set_cat_to_sub_cat({"cat1": "s"})] the registry still
    reports to be filtered and still returns the filtered view computed
    before the substitution, whose name [cat1] is no longer among the
    categories [a, b, cat2]. *)
Theorem stale_filter_after_substitution :
  let self :=
    do_calls (__post_init__ ["cat1"; "cat2"] [("cat1", [("s", ["a"; "b"])])])
      [FilterCategories (Str "cat1"); SetCatToSubCat [("cat1", "s")]] in
  is_filtered self = true
  /\ get_categories self false false false true = AsList ["cat1"]
  /\ get_categories self false false false false = AsList ["a"; "b"; "cat2"].
Proof. repeat split. Qed.

(** ** Loops that may raise *)

Lemma bind_Ok_r {A} (r : result A) : bind r Ok = r.
Proof. now destruct r. Qed.

(** An exception that leaves a loop was raised by its body. *)
Lemma for_each_raise {X S} (P : exn -> Prop) (body : S -> X -> result S)
    (xs : list X) :
  (forall s x e, In x xs -> body s x = Raise e -> P e) ->
  forall s e, for_each body xs s = Raise e -> P e.
Proof.
  induction xs as [|x xs IH]; intros Hbody s e; simpl; [discriminate|].
  destruct (body s x) as [s'|e'] eqn:E; simpl.
  - apply IH. intros s0 x0 e0 Hin. apply Hbody. now right.
  - intros [= <-]. apply (Hbody s x e'); [now left | assumption].
Qed.

(** A body that raises on some element, whatever the state, makes the
    loop raise. *)
Lemma for_each_propagates {X S} (body : S -> X -> result S) (xs : list X) (x : X) :
  In x xs ->
  (forall s, exists e, body s x = Raise e) ->
  forall s, exists e, for_each body xs s = Raise e.
Proof.
  intros Hin Hx. induction xs as [|y xs IH]; [contradiction|].
  intros s. simpl. destruct Hin as [->|Hin].
  - destruct (Hx s) as [e He]. rewrite He. now exists e.
  - destruct (body s y) as [s'|e]; simpl; [now apply IH | now exists e].
Qed.

(** A body that never raises: the loop is a fold. *)
Lemma for_each_pure {X S} (body : S -> X -> result S) (step : S -> X -> S)
    (xs : list X) :
  (forall s x, In x xs -> body s x = Ok (step s x)) ->
  forall s, for_each body xs s = Ok (fold_left step xs s).
Proof.
  induction xs as [|x xs IH]; intros Hbody s; simpl; [reflexivity|].
  rewrite Hbody by now left. simpl.
  apply IH. intros s0 x0 Hin. apply Hbody. now right.
Qed.

(** ** The view that [get_sub_categories] checks names against *)

Lemma current_view_eq (self : DatasetCategories) :
  current_view self
  = match _categories_filter_update self with
    | Some filtered => filtered
    | None => _categories_update self
    end.
Proof.
  unfold current_view, get_categories. simpl.
  now destruct (_categories_filter_update self).
Qed.

Lemma scan_cat_to_sub_cat_raise (self : DatasetCategories) (cat : string)
    (m : Dict.t string) (sub_cat : Dict.t (list string)) (e : exn) :
  scan_cat_to_sub_cat self cat m sub_cat = Raise e -> is_KeyError e.
Proof.
  unfold scan_cat_to_sub_cat. apply for_each_raise.
  intros s [key val] e0 _. simpl. unfold subscript at 1.
  destruct (Dict.get key (init_sub_categories self)) as [d|] eqn:Ed; simpl.
  - unfold scan_possible_sub_cats. apply for_each_raise.
    intros s0 pos e1 _. destruct (String.eqb pos val); [|discriminate].
    unfold subscript. rewrite Ed. simpl.
    destruct (Dict.get cat d); discriminate.
  - intros [= <-]. now exists key.
Qed.

Lemma sub_categories_of_in_view (self : DatasetCategories)
    (sub_cat : Dict.t (list string)) (cat : string) (e : exn) :
  In cat (current_view self) ->
  sub_categories_of self sub_cat cat = Raise e -> is_KeyError e.
Proof.
  intros Hin. unfold sub_categories_of, mem_view.
  fold (current_view self). apply mem_list_In in Hin. rewrite Hin.
  destruct (Dict.get cat (init_sub_categories self)); [discriminate|].
  destruct (truthy (_cat_to_sub_cat self)); [|discriminate].
  apply scan_cat_to_sub_cat_raise.
Qed.

Lemma sub_categories_of_not_in_view (self : DatasetCategories)
    (sub_cat : Dict.t (list string)) (cat : string) :
  ~ In cat (current_view self) ->
  sub_categories_of self sub_cat cat
  = Raise (AssertionError (not_in_categories_msg cat)).
Proof.
  intros Hin. unfold sub_categories_of, mem_view.
  fold (current_view self). apply mem_list_not_In in Hin. now rewrite Hin.
Qed.

Lemma In_dec_view (self : DatasetCategories) (cat : string) :
  {In cat (current_view self)} + {~ In cat (current_view self)}.
Proof. apply in_dec, string_dec. Qed.

(** C9 as stated fails.  With the substitution
    [{"cat1": "s", "cat2": "t"}], where [cat2] has no definition, the
    name [b] is in the category view and [get_sub_categories("b")] raises
    all the same, a [KeyError]: an error is raised although the name is
    in the view.  And for a name that is not in the view the error is an
    [AssertionError], not an [InvalidRequestError]. *)
Lemma get_sub_categories_raises_for_name_in_view :
  let self :=
    set_cat_to_sub_cat
      (__post_init__ ["cat1"; "cat2"] [("cat1", [("s", ["a"; "b"])])])
      [("cat1", "s"); ("cat2", "t")] in
  In "b" (current_view self)
  /\ get_sub_categories self (Some (Str "b")) = Raise (KeyError "cat2")
  /\ ~ ((exists e, get_sub_categories self (Some (Str "b")) = Raise e)
        <-> ~ In "b" (current_view self))
  /\ ~ In "zzz" (current_view self)
  /\ ~ (exists e, get_sub_categories self (Some (Str "zzz")) = Raise e
                  /\ exn_name e = "InvalidRequestError").
Proof.
  assert (Hb : In "b" ["a"; "b"; "cat2"]) by (right; left; reflexivity).
  assert (Hz : ~ In "zzz" ["a"; "b"; "cat2"])
    by (intros [H|[H|[H|[]]]]; discriminate H).
  simpl. split; [exact Hb|]. split; [reflexivity|].
  split; [|split; [exact Hz|]].
  - intros [H _]. apply H; [|exact Hb]. eexists. reflexivity.
  - intros (e & He & Hname). vm_compute in He. injection He as <-.
    discriminate Hname.
Qed.

(** C9, amended. The names are checked against the filtered view if a
    filter has been set and against [_categories_update] otherwise.
    Asked for one name, [get_sub_categories] raises an [AssertionError]
    if and only if the name is not in that view, and the message is the
    name followed by
    " not in categories, maybe has been replaced with sub category";
    for a name in the view the only exception it can raise is a
    [KeyError].  Asked for a list of names, an assertion error it raises
    is the one of a listed name that is not in the view, and a listed
    name that is not in the view makes the call raise: no result is
    returned.  Whatever the request, an exception that the call raises
    is a [KeyError] or the assertion error of a name that is not in the
    view; no other class of exception is raised. *)
Theorem get_sub_categories_assertion (self : DatasetCategories) (name : string) :
  current_view self
  = match _categories_filter_update self with
    | Some filtered => filtered
    | None => _categories_update self
    end
  /\ ((exists msg, get_sub_categories self (Some (Str name))
                  = Raise (AssertionError msg))
      <-> ~ In name (current_view self))
  /\ (~ In name (current_view self) ->
      get_sub_categories self (Some (Str name))
      = Raise (AssertionError
                 (name ++ " not in categories, maybe has been replaced with sub category")))
  /\ (forall names msg,
        get_sub_categories self (Some (Lst names)) = Raise (AssertionError msg) ->
        exists cat, In cat names /\ ~ In cat (current_view self)
                    /\ msg = not_in_categories_msg cat)
  /\ (forall names,
        (exists cat, In cat names /\ ~ In cat (current_view self)) ->
        exists e, get_sub_categories self (Some (Lst names)) = Raise e)
  /\ (In name (current_view self) ->
      forall e, get_sub_categories self (Some (Str name)) = Raise e ->
                exists key, e = KeyError key)
  /\ (forall request e,
        get_sub_categories self request = Raise e ->
        (exists key, e = KeyError key)
        \/ exists cat, ~ In cat (current_view self)
                       /\ e = AssertionError (not_in_categories_msg cat)).
Proof.
  split; [apply current_view_eq|].
  assert (Hone : forall n, get_sub_categories self (Some (Str n))
                           = sub_categories_of self [] n).
  { intros n. unfold get_sub_categories. simpl. apply bind_Ok_r. }
  split; [|split; [|split; [|split; [|split]]]].
  - rewrite Hone. split.
    + intros [msg Hmsg] Hin.
      destruct (sub_categories_of_in_view _ _ _ _ Hin Hmsg) as [key Hkey].
      discriminate Hkey.
    + intros Hnot. eexists. now apply sub_categories_of_not_in_view.
  - intros Hnot. rewrite Hone. now apply sub_categories_of_not_in_view.
  - intros names msg Hraised. unfold get_sub_categories in Hraised.
    refine (for_each_raise
              (fun e => forall msg, e = AssertionError msg ->
                 exists cat, In cat names /\ ~ In cat (current_view self)
                             /\ msg = not_in_categories_msg cat)
              (sub_categories_of self) names _ [] _ Hraised msg eq_refl).
    intros s x e Hx Hraise msg0 ->.
    destruct (In_dec_view self x) as [Hin|Hnot].
    + destruct (sub_categories_of_in_view _ _ _ _ Hin Hraise) as [key Hkey].
      discriminate Hkey.
    + rewrite (sub_categories_of_not_in_view _ _ _ Hnot) in Hraise.
      injection Hraise as <-. now exists x.
  - intros names (cat & Hin & Hnot). unfold get_sub_categories.
    apply for_each_propagates with (x := cat); [assumption|].
    intros s. eexists. now apply sub_categories_of_not_in_view.
  - intros Hin e. rewrite Hone. apply sub_categories_of_in_view. exact Hin.
  - intros request e Hraised. unfold get_sub_categories in Hraised.
    refine (for_each_raise
              (fun e => (exists key, e = KeyError key)
                        \/ exists cat, ~ In cat (current_view self)
                             /\ e = AssertionError (not_in_categories_msg cat))
              (sub_categories_of self) _ _ [] e Hraised).
    intros s x e0 _ Hraise.
    destruct (In_dec_view self x) as [Hin|Hnot].
    + left. exact (sub_categories_of_in_view _ _ _ _ Hin Hraise).
    + right. rewrite (sub_categories_of_not_in_view _ _ _ Hnot) in Hraise.
      injection Hraise as <-. now exists x.
Qed.

(** ** Sub-categories of a name that has no definition of its own *)

Lemma set_set_same {V} (k : string) (v w : V) (d : Dict.t V) :
  Dict.set k v (Dict.set k w d) = Dict.set k v d.
Proof.
  induction d as [|[k' v'] d IH]; simpl.
  - now rewrite String.eqb_refl.
  - destruct (String.eqb k k') eqn:E; simpl; rewrite E; [reflexivity|].
    now rewrite IH.
Qed.

Lemma mem_list_cons (x y : string) (l : list string) :
  mem_list x (y :: l) = String.eqb y x || mem_list x l.
Proof. unfold mem_list. simpl. now rewrite String.eqb_sym. Qed.

(** The innermost loop stores the entry of [cat] when [val] is a key of
    the definition, and changes nothing otherwise. *)
Lemma scan_possible_sub_cats_eq (self : DatasetCategories)
    (cat key val : string) (d : Dict.t (list string))
    (possible_sub_cats sub_cat : Dict.t (list string)) :
  Dict.get key (init_sub_categories self) = Some d ->
  scan_possible_sub_cats self cat key val possible_sub_cats sub_cat
  = Ok (if mem_list val (Dict.keys possible_sub_cats)
        then Dict.set cat (Dict.get_default cat [] d) sub_cat
        else sub_cat).
Proof.
  intros Hd. unfold scan_possible_sub_cats.
  generalize (Dict.keys possible_sub_cats) as ks. intros ks. revert sub_cat.
  induction ks as [|pos ks IH]; intros sub_cat; [reflexivity|].
  cbn [for_each]. rewrite mem_list_cons. unfold subscript at 1. rewrite Hd.
  destruct (String.eqb pos val); cbn [bind orb].
  - replace (match Dict.get cat d with
             | Some sub_cat_list => Ok (Dict.set cat sub_cat_list sub_cat)
             | None => Ok (Dict.set cat [] sub_cat)
             end)
      with (Ok (Dict.set cat (Dict.get_default cat [] d) sub_cat))
      by (unfold Dict.get_default; now destruct (Dict.get cat d)).
    simpl. rewrite IH. rewrite set_set_same.
    now destruct (mem_list val ks).
  - apply IH.
Qed.

Lemma scan_cat_to_sub_cat_eq (self : DatasetCategories) (cat : string)
    (m : Dict.t string) (sub_cat : Dict.t (list string)) :
  (forall key, In key (Dict.keys m) ->
               In key (Dict.keys (init_sub_categories self))) ->
  scan_cat_to_sub_cat self cat m sub_cat
  = Ok (fold_left (scan_step (init_sub_categories self) cat) m sub_cat).
Proof.
  intros Hkeys. unfold scan_cat_to_sub_cat. apply for_each_pure.
  intros s [key val] Hin. simpl.
  assert (Hk : In key (Dict.keys (init_sub_categories self))).
  { apply Hkeys. unfold Dict.keys. now apply (in_map fst) in Hin. }
  apply DictFacts.In_keys_get in Hk. destruct Hk as [d Hd].
  unfold subscript. rewrite Hd. simpl.
  rewrite (scan_possible_sub_cats_eq _ _ _ _ d _ _ Hd).
  unfold scan_step, chosen_is_defined, Dict.get_default. simpl.
  unfold sub_categories, Dict.t in *. now rewrite Hd.
Qed.



(** On a match the list returned is the one stored under the requested
    name, not the one of the chosen key. *)
Example get_sub_categories_promoted_value :
  get_sub_categories
    (set_cat_to_sub_cat
       (__post_init__ ["cat1"; "cat2"] [("cat1", [("s", ["a"; "b"])])])
       [("cat1", "s")])
    (Some (Str "a"))
  = Ok [("a", [])].
Proof. reflexivity. Qed.



(** ** Merging: the union of the categories *)

Lemma filter_comm {A} (p q : A -> bool) (l : list A) :
  filter p (filter q l) = filter q (filter p l).
Proof.
  induction l as [|x l IH]; simpl; [reflexivity|].
  destruct (p x) eqn:Ep, (q x) eqn:Eq; simpl; rewrite ?Ep, ?Eq, IH; reflexivity.
Qed.

Lemma filter_absorb {A} (p q : A -> bool) (l : list A) :
  (forall x, p x = true -> q x = true) ->
  filter p (filter q l) = filter p l.
Proof.
  intros Hpq. induction l as [|x l IH]; simpl; [reflexivity|].
  destruct (q x) eqn:Eq; simpl.
  - now rewrite IH.
  - destruct (p x) eqn:Ep; [|assumption].
    apply Hpq in Ep. congruence.
Qed.

Lemma filter_andb {A} (p q : A -> bool) (l : list A) :
  filter p (filter q l) = filter (fun x => q x && p x) l.
Proof.
  induction l as [|x l IH]; simpl; [reflexivity|].
  destruct (q x); simpl; [destruct (p x)|]; now rewrite IH.
Qed.

Lemma stable_dedup_filter (p : string -> bool) (l : list string) :
  stable_dedup (filter p l) = filter p (stable_dedup l).
Proof.
  induction l as [|x l IH]; simpl; [reflexivity|].
  destruct (p x) eqn:Ep; simpl; rewrite ?Ep, IH.
  - now rewrite filter_comm.
  - symmetry. apply filter_absorb.
    intros y Hy. destruct (String.eqb_spec y x) as [->|]; [congruence | reflexivity].
Qed.

Lemma stable_dedup_In (l : list string) (x : string) :
  In x (stable_dedup l) <-> In x l.
Proof.
  induction l as [|y l IH]; simpl; [tauto|].
  rewrite filter_In, IH.
  destruct (String.eqb_spec x y) as [->|Hne]; simpl.
  - tauto.
  - split; [tauto|]. intros [H|H]; [congruence | auto].
Qed.

Lemma stable_dedup_NoDup (l : list string) : NoDup (stable_dedup l).
Proof.
  induction l as [|y l IH]; simpl; constructor.
  - rewrite filter_In. intros [_ H]. now rewrite String.eqb_refl in H.
  - now apply NoDup_filter.
Qed.

Lemma fold_add_label (l acc : list string) :
  fold_left add_label l acc
  = acc ++ stable_dedup (filter (fun x => negb (mem_list x acc)) l).
Proof.
  revert acc. induction l as [|x l IH]; intros acc; simpl.
  - now rewrite app_nil_r.
  - unfold add_label at 2. destruct (mem_list x acc) eqn:E; simpl.
    + apply IH.
    + rewrite IH, <- app_assoc. simpl. do 2 f_equal.
      rewrite <- stable_dedup_filter. f_equal.
      rewrite filter_andb. apply filter_ext. intros y.
      rewrite mem_list_app, negb_orb, mem_list_cons. simpl.
      rewrite orb_false_r. f_equal. f_equal. apply String.eqb_sym.
Qed.

Lemma fold_nested {A B} (step : B -> A -> B) (f : DatasetCategories -> list A)
    (cs : list DatasetCategories) (acc : B) :
  fold_left (fun acc c => fold_left step (f c) acc) cs acc
  = fold_left step (List.concat (map f cs)) acc.
Proof.
  revert acc. induction cs as [|c cs IH]; intros acc; simpl; [reflexivity|].
  now rewrite fold_left_app, IH.
Qed.

(** The first loop of the merge is the stable de-duplication of the
    inputs' [init_categories], one input after the other. *)
Lemma merge_init_categories_eq (cs : list DatasetCategories) :
  merge_init_categories cs = stable_dedup (List.concat (map init_categories cs)).
Proof.
  unfold merge_init_categories.
  change (fold_left (fun acc c => fold_left add_label (init_categories c) acc) cs []
          = stable_dedup (List.concat (map init_categories cs))).
  rewrite (fold_nested add_label init_categories cs []).
  rewrite fold_add_label. simpl. f_equal.
  clear. induction (List.concat (map init_categories cs)) as [|x l IH];
    simpl; now rewrite ?IH.
Qed.

(** ** Merging: the shared sub-categories *)

Lemma set_order_nodup : set_order (nodup string_dec).
Proof.
  intros l. split; [apply NoDup_nodup | intros x; apply nodup_In].
Qed.

Lemma set_intersection_In (first : list string) (others : list (list string))
    (x : string) :
  In x (set_intersection first others)
  <-> In x first /\ forall o, In o others -> In x o.
Proof.
  unfold set_intersection. rewrite filter_In, forallb_forall.
  split; intros [H1 H2]; (split; [assumption|]); intros o Ho.
  - apply mem_list_In. now apply H2.
  - apply mem_list_In. now apply H2.
Qed.

(** A dict built by storing a value for each key of a duplicate-free list. *)
Lemma get_tabulate {V} (g : string -> V) (ks : list string) (k : string) :
  Dict.get k (map (fun k => (k, g k)) ks)
  = if mem_list k ks then Some (g k) else None.
Proof.
  induction ks as [|k' ks IH]; [reflexivity|].
  rewrite mem_list_cons. simpl. rewrite (String.eqb_sym k' k).
  destruct (String.eqb_spec k k') as [->|]; simpl; [reflexivity | exact IH].
Qed.

Lemma keys_tabulate {V} (g : string -> V) (ks : list string) :
  Dict.keys (map (fun k => (k, g k)) ks) = ks.
Proof. unfold Dict.keys. rewrite map_map. simpl. apply map_id. Qed.

Lemma for_each_tabulate {V} (f : string -> result V) (g : string -> V)
    (ks : list string) :
  NoDup ks ->
  (forall k, In k ks -> f k = Ok (g k)) ->
  for_each (fun acc k => v <- f k ;; Ok (Dict.set k v acc)) ks []
  = Ok (map (fun k => (k, g k)) ks).
Proof.
  intros Hnd Hf.
  rewrite (for_each_pure _ (fun acc k => Dict.set k (g k) acc)).
  - f_equal. apply (DictFacts.store_fresh (fun k => k) g ks []).
    simpl. now rewrite map_id.
  - intros s k Hin. now rewrite Hf.
Qed.

Lemma fold_app_concat {A B} (f : B -> list A) (xs : list B) (acc : list A) :
  fold_left (fun acc x => acc ++ f x) xs acc = acc ++ List.concat (map f xs).
Proof.
  revert acc. induction xs as [|x xs IH]; intros acc; simpl.
  - now rewrite app_nil_r.
  - now rewrite IH, app_assoc.
Qed.

Lemma fold_snoc_map {A B} (f : B -> A) (xs : list B) (acc : list A) :
  fold_left (fun acc x => acc ++ [f x]) xs acc = acc ++ map f xs.
Proof.
  revert acc. induction xs as [|x xs IH]; intros acc; simpl.
  - now rewrite app_nil_r.
  - now rewrite IH, <- app_assoc.
Qed.

Lemma subscript_definition (key : string) (c : DatasetCategories) :
  In key (Dict.keys (init_sub_categories c)) ->
  subscript (init_sub_categories c) key = Ok (definition_of key c).
Proof.
  intros H. apply DictFacts.In_keys_get in H. destruct H as [d Hd].
  unfold subscript, definition_of, Dict.get_default.
  unfold sub_categories, Dict.t in *. now rewrite Hd.
Qed.

Lemma subscript_values (key sub_cat_key : string) (c : DatasetCategories) :
  In sub_cat_key (Dict.keys (definition_of key c)) ->
  subscript (definition_of key c) sub_cat_key = Ok (values_of key sub_cat_key c).
Proof.
  intros H. apply DictFacts.In_keys_get in H. destruct H as [l Hl].
  unfold subscript, values_of, Dict.get_default.
  unfold Dict.t in *. now rewrite Hl.
Qed.

Section MergeFacts.

Variable set_iter : list string -> list string.
Hypothesis set_iter_order : set_order set_iter.

Let set_iter_In l x : In x (set_iter l) <-> In x l := proj2 (set_iter_order l) x.
Let set_iter_NoDup l : NoDup (set_iter l) := proj1 (set_iter_order l).

Lemma merge_sub_cat_values_eq (all : list DatasetCategories)
    (key sub_cat_key : string) :
  (forall c, In c all -> In key (Dict.keys (init_sub_categories c))) ->
  (forall c, In c all -> In sub_cat_key (Dict.keys (definition_of key c))) ->
  merge_sub_cat_values set_iter all key sub_cat_key
  = Ok (merged_values set_iter key sub_cat_key all).
Proof.
  intros Hkey Hsub. unfold merge_sub_cat_values.
  rewrite (for_each_pure _ (fun val c => val ++ values_of key sub_cat_key c)).
  - simpl. now rewrite fold_app_concat.
  - intros s c Hin.
    rewrite (subscript_definition _ _ (Hkey c Hin)). simpl.
    now rewrite (subscript_values _ _ _ (Hsub c Hin)).
Qed.

Lemma merge_sub_cats_of_key_eq (c : DatasetCategories)
    (cs : list DatasetCategories) (key : string) :
  (forall c', In c' (c :: cs) -> In key (Dict.keys (init_sub_categories c'))) ->
  merge_sub_cats_of_key set_iter (c :: cs) key = Ok (merged_definition set_iter c cs key).
Proof.
  intros Hkey. unfold merge_sub_cats_of_key.
  rewrite (for_each_pure _ (fun acc c' => acc ++ [definition_of key c'])).
  - rewrite fold_snoc_map, app_nil_l.
    unfold index0, bind, tl. cbn [map]. rewrite map_map.
    apply (for_each_tabulate
             (fun k => merge_sub_cat_values set_iter (c :: cs) key k)
             (fun k => merged_values set_iter key k (c :: cs))).
    + apply set_iter_NoDup.
    + intros k Hk. apply merge_sub_cat_values_eq; [assumption|].
      apply set_iter_In, set_intersection_In in Hk. destruct Hk as [Hc Hcs].
      intros c' [<-|Hin]; [assumption|].
      apply Hcs. now apply (in_map (fun c' => Dict.keys (definition_of key c'))).
  - intros s c' Hin. now rewrite (subscript_definition _ _ (Hkey c' Hin)).
Qed.

(** For a non-empty sequence of inputs the merge raises nothing, and
    this is the registry it returns. *)
Lemma get_merged_categories_eq (c : DatasetCategories)
    (cs : list DatasetCategories) :
  get_merged_categories set_iter (c :: cs)
  = Ok {| init_categories :=
            stable_dedup (List.concat (map init_categories (c :: cs)));
          init_sub_categories := merged_sub_categories set_iter c cs;
          _categories_update :=
            set_iter (List.concat (map _categories_update (c :: cs)));
          _cat_to_sub_cat := None;
          _categories_filter_update :=
            Some (set_iter (List.concat (map current_view (c :: cs)))) |}.
Proof.
  unfold get_merged_categories. rewrite merge_init_categories_eq.
  cbn [index0 bind tl].
  rewrite (for_each_tabulate
             (fun key => merge_sub_cats_of_key set_iter (c :: cs) key)
             (merged_definition set_iter c cs)).
  - reflexivity.
  - apply set_iter_NoDup.
  - intros key Hkey. apply merge_sub_cats_of_key_eq.
    apply set_iter_In, set_intersection_In in Hkey. destruct Hkey as [Hc Hcs].
    intros c' [<-|Hin]; [assumption|].
    apply Hcs. now apply (in_map (fun c' => Dict.keys (init_sub_categories c'))).
Qed.

End MergeFacts.

Lemma definition_of_get (key : string) (c : DatasetCategories)
    (d : Dict.t (list string)) :
  Dict.get key (init_sub_categories c) = Some d -> definition_of key c = d.
Proof.
  intros H. unfold definition_of, Dict.get_default.
  unfold sub_categories, Dict.t in *. now rewrite H.
Qed.

Lemma values_of_get (key sub_cat_key : string) (c : DatasetCategories)
    (d : Dict.t (list string)) (l : list string) :
  Dict.get key (init_sub_categories c) = Some d ->
  Dict.get sub_cat_key d = Some l ->
  values_of key sub_cat_key c = l.
Proof.
  intros Hd Hl. unfold values_of. rewrite (definition_of_get _ _ _ Hd).
  unfold Dict.get_default. unfold Dict.t in *. now rewrite Hl.
Qed.

Lemma shared_categories_In (c : DatasetCategories) (cs : list DatasetCategories)
    (key : string) :
  In key (shared_categories c cs)
  <-> forall c', In c' (c :: cs) -> In key (Dict.keys (init_sub_categories c')).
Proof.
  unfold shared_categories. rewrite set_intersection_In. split.
  - intros [Hc Hcs] c' [<-|Hin]; [assumption|].
    apply Hcs. now apply (in_map (fun c' => Dict.keys (init_sub_categories c'))).
  - intros H. split; [apply H; now left|].
    intros o Ho. apply in_map_iff in Ho. destruct Ho as (c' & <- & Hin).
    apply H. now right.
Qed.

Lemma shared_sub_categories_In (key : string) (c : DatasetCategories)
    (cs : list DatasetCategories) (sub_cat_key : string) :
  In sub_cat_key (shared_sub_categories key c cs)
  <-> forall c', In c' (c :: cs) -> In sub_cat_key (Dict.keys (definition_of key c')).
Proof.
  unfold shared_sub_categories. rewrite set_intersection_In. split.
  - intros [Hc Hcs] c' [<-|Hin]; [assumption|].
    apply Hcs. now apply (in_map (fun c' => Dict.keys (definition_of key c'))).
  - intros H. split; [apply H; now left|].
    intros o Ho. apply in_map_iff in Ho. destruct Ho as (c' & <- & Hin).
    apply H. now right.
Qed.

Lemma get_tabulate_Some {V} (g : string -> V) (ks : list string) (k : string) (v : V) :
  Dict.get k (map (fun k => (k, g k)) ks) = Some v -> In k ks /\ v = g k.
Proof.
  rewrite get_tabulate. destruct (mem_list k ks) eqn:E; [|discriminate].
  intros [= <-]. split; [now apply mem_list_In | reflexivity].
Qed.

(** C2. For a non-empty sequence of inputs the merge returns a registry
    such that: its [init_categories] are the inputs' [init_categories],
    one input after the other, each name kept at its first appearance
    (no duplicates, every name of some input, not sorted); its
    sub-category definitions have exactly the category keys that have a
    definition in every input; the definition of such a key has exactly
    the sub-category keys that the key's definition has in every input;
    and the values stored for such a sub-category key are, without
    duplicates and as a set, the values that the inputs store for it.  Merging A (categories cat1,
    cat2; cat1: {s: [x, y]}) with B (categories cat2, cat3; no
    sub-categories) gives the categories cat1, cat2, cat3 and no
    sub-category definitions. *)
Theorem get_merged_categories_union_and_intersection
    (set_iter : list string -> list string)
    (c : DatasetCategories) (cs : list DatasetCategories) :
  set_order set_iter ->
  (exists merged,
     get_merged_categories set_iter (c :: cs) = Ok merged
     /\ init_categories merged
        = stable_dedup (List.concat (map init_categories (c :: cs)))
     /\ NoDup (init_categories merged)
     /\ (forall name, In name (init_categories merged)
           <-> exists c', In c' (c :: cs) /\ In name (init_categories c'))
     /\ (forall key, In key (Dict.keys (init_sub_categories merged))
           <-> forall c', In c' (c :: cs) ->
                 In key (Dict.keys (init_sub_categories c')))
     /\ (forall key d, Dict.get key (init_sub_categories merged) = Some d ->
           (forall sub_cat_key, In sub_cat_key (Dict.keys d)
              <-> forall c', In c' (c :: cs) ->
                    exists d', Dict.get key (init_sub_categories c') = Some d'
                               /\ In sub_cat_key (Dict.keys d'))
           /\ (forall sub_cat_key values, Dict.get sub_cat_key d = Some values ->
                 NoDup values
                 /\ forall v, In v values
                      <-> exists c' d' l,
                            In c' (c :: cs)
                            /\ Dict.get key (init_sub_categories c') = Some d'
                            /\ Dict.get sub_cat_key d' = Some l
                            /\ In v l)))
  /\ (exists merged,
        get_merged_categories set_iter
          [__post_init__ ["cat1"; "cat2"] [("cat1", [("s", ["x"; "y"])])];
           __post_init__ ["cat2"; "cat3"] []]
        = Ok merged
        /\ init_categories merged = ["cat1"; "cat2"; "cat3"]
        /\ init_sub_categories merged = []).
Proof.
  intros Horder.
  assert (HIn : forall l x, In x (set_iter l) <-> In x l)
    by (intros l; apply Horder).
  split.
  - eexists. split; [apply (get_merged_categories_eq set_iter Horder)|].
    cbn [init_categories init_sub_categories].
    split; [reflexivity|]. split; [apply stable_dedup_NoDup|].
    split; [|split].
    + intros name. rewrite stable_dedup_In, in_concat. split.
      * intros (l & Hl & Hname). apply in_map_iff in Hl.
        destruct Hl as (c' & <- & Hc'). now exists c'.
      * intros (c' & Hc' & Hname). exists (init_categories c').
        split; [now apply in_map | assumption].
    + intros key. unfold merged_sub_categories.
      rewrite keys_tabulate, HIn. apply shared_categories_In.
    + intros key d Hd. unfold merged_sub_categories in Hd.
      apply get_tabulate_Some in Hd. destruct Hd as [Hkey ->].
      apply (proj1 (HIn _ _)) in Hkey.
      pose proof (proj1 (shared_categories_In _ _ _) Hkey) as Hall. clear Hkey.
      rename Hall into Hkey.
      assert (Hdef : forall c', In c' (c :: cs) ->
                Dict.get key (init_sub_categories c') = Some (definition_of key c')).
      { intros c' Hc'. destruct (DictFacts.In_keys_get _ _ (Hkey c' Hc')) as [d' Hd'].
        now rewrite (definition_of_get _ _ _ Hd'). }
      split.
      * intros sub_cat_key. unfold merged_definition.
        rewrite keys_tabulate, HIn, shared_sub_categories_In. split.
        -- intros H c' Hc'. exists (definition_of key c'). auto.
        -- intros H c' Hc'. destruct (H c' Hc') as (d' & Hd' & Hsub).
           now rewrite (definition_of_get _ _ _ Hd').
      * intros sub_cat_key values Hvalues. unfold merged_definition in Hvalues.
        apply get_tabulate_Some in Hvalues. destruct Hvalues as [Hsub ->].
        split; [apply Horder|]. intros v.
        apply (proj1 (HIn _ _)) in Hsub.
        pose proof (proj1 (shared_sub_categories_In _ _ _ _) Hsub) as Hall.
        clear Hsub. rename Hall into Hsub.
        unfold merged_values. rewrite HIn, in_concat. split.
        -- intros (l & Hl & Hv). apply in_map_iff in Hl.
           destruct Hl as (c' & <- & Hc').
           destruct (DictFacts.In_keys_get _ _ (Hsub c' Hc')) as [l Hl].
           exists c', (definition_of key c'), l.
           repeat split; auto.
           now rewrite (values_of_get _ _ _ _ _ (Hdef c' Hc') Hl) in Hv.
        -- intros (c' & d' & l & Hc' & Hd' & Hl & Hv).
           exists (values_of key sub_cat_key c'). split; [now apply in_map|].
           now rewrite (values_of_get _ _ _ _ _ Hd' Hl).
  - eexists. split; [apply (get_merged_categories_eq set_iter Horder)|].
    cbn [init_categories init_sub_categories]. split; [reflexivity|].
    unfold merged_sub_categories, shared_categories. simpl.
    destruct (set_iter []) as [|x l] eqn:E; [reflexivity|].
    exfalso. apply (HIn [] x). rewrite E. now left.
Qed.

Lemma get_merged_categories_union_and_intersection_witness :
  set_order (nodup string_dec)
  /\ exists merged,
       get_merged_categories (nodup string_dec)
         [__post_init__ ["cat1"; "cat2"] [("cat1", [("s", ["x"; "y"]); ("t", ["u"])])];
          __post_init__ ["cat2"; "cat1"] [("cat1", [("s", ["y"; "z"])])]]
       = Ok merged
       /\ init_categories merged = ["cat1"; "cat2"]
       /\ Dict.keys (init_sub_categories merged) = ["cat1"].
Proof.
  split; [exact set_order_nodup|].
  destruct (get_merged_categories_union_and_intersection (nodup string_dec)
              (__post_init__ ["cat1"; "cat2"] [("cat1", [("s", ["x"; "y"]); ("t", ["u"])])])
              [__post_init__ ["cat2"; "cat1"] [("cat1", [("s", ["y"; "z"])])]]
              set_order_nodup) as [(merged & Hm & Hinit & _) _].
  exists merged. split; [exact Hm|]. split; [exact Hinit|].
  vm_compute in Hm. injection Hm as <-. reflexivity.
Defined.



(** * Further properties of [info.py] *)

(** ** [_get_dict] with names as keys *)

Lemma keys_store {X V} (key : X -> string) (val : X -> V) (xs : list X)
    (d : Dict.t V) :
  Dict.keys (fold_left (fun d x => Dict.set (key x) (val x) d) xs d)
  = fold_left add_label (map key xs) (Dict.keys d).
Proof.
  revert d. induction xs as [|x xs IH]; intros d; simpl; [reflexivity|].
  rewrite IH. now rewrite DictFacts.keys_set.
Qed.

Lemma fold_add_label_nil (l : list string) :
  fold_left add_label l [] = stable_dedup l.
Proof.
  rewrite fold_add_label. simpl. f_equal.
  induction l as [|x l IH]; simpl; now rewrite ?IH.
Qed.

Lemma keys_get_dict_names (l : list string) (s : nat) :
  Dict.keys (_get_dict l true s) = stable_dedup l.
Proof.
  unfold _get_dict, Dict.comprehension.
  rewrite (keys_store (fun kv : nat * string => snd kv)).
  rewrite map_snd_enumerate. apply fold_add_label_nil.
Qed.

Lemma get_store_other {X V} (key : X -> string) (val : X -> V) (xs : list X)
    (d : Dict.t V) (k : string) :
  ~ In k (map key xs) ->
  Dict.get k (fold_left (fun d x => Dict.set (key x) (val x) d) xs d) = Dict.get k d.
Proof.
  revert d. induction xs as [|x xs IH]; intros d Hk; simpl; [reflexivity|].
  rewrite IH by (intros H; apply Hk; now right).
  apply DictFacts.get_set_other. intros ->. apply Hk. now left.
Qed.

Lemma get_store_last {X V} (key : X -> string) (val : X -> V)
    (xs1 xs2 : list X) (y : X) (d : Dict.t V) :
  ~ In (key y) (map key xs2) ->
  Dict.get (key y)
    (fold_left (fun d x => Dict.set (key x) (val x) d) (xs1 ++ y :: xs2) d)
  = Some (val y).
Proof.
  intros Hy. rewrite fold_left_app. simpl.
  rewrite get_store_other by assumption.
  apply DictFacts.get_set_same.
Qed.

Lemma enumerate_app {A} (l1 l2 : list A) (s : nat) :
  enumerate (l1 ++ l2) s = enumerate l1 s ++ enumerate l2 (s + List.length l1).
Proof.
  revert s. induction l1 as [|x l1 IH]; intros s; simpl.
  - now rewrite Nat.add_0_r.
  - rewrite IH. do 3 f_equal. lia.
Qed.

(** Where the index count starts at a natural number: with names as keys a
    repeated name is one entry, the keys are the names in the order of
    their first appearance, and a name has the index of its last
    occurrence. *)
Lemma get_dict_names_last
    (l1 l2 : list string) (x : string) (starts_with : nat) :
  ~ In x l2 ->
  Dict.get x (_get_dict (l1 ++ x :: l2) true starts_with)
  = Some (str (starts_with + List.length l1))
  /\ Dict.keys (_get_dict (l1 ++ x :: l2) true starts_with)
     = stable_dedup (l1 ++ x :: l2).
Proof.
  intros Hx. split; [|apply keys_get_dict_names].
  unfold _get_dict, Dict.comprehension.
  rewrite enumerate_app. cbn [enumerate].
  apply (get_store_last (fun kv : nat * string => snd kv)
           (fun kv => str (fst kv)) _ _ (starts_with + List.length l1, x)).
  cbn [snd]. now rewrite map_snd_enumerate.
Qed.

Lemma get_In_NoDup {V} (d : Dict.t V) (k : string) (v : V) :
  NoDup (Dict.keys d) -> (Dict.get k d = Some v <-> In (k, v) d).
Proof.
  induction d as [|[k' v'] d IH]; simpl; intros Hnd.
  - split; [discriminate | contradiction].
  - apply NoDup_cons_iff in Hnd. destruct Hnd as [Hk' Hnd].
    destruct (String.eqb_spec k k') as [->|Hne].
    + split.
      * intros [= ->]. now left.
      * intros [[= ->]|Hin]; [reflexivity|].
        exfalso. apply Hk'. now apply (in_map fst) in Hin.
    + rewrite (IH Hnd). split; [auto|].
      intros [[= -> ->]|Hin]; [contradiction | assumption].
Qed.

Lemma keys_combine {V} (ks : list string) (vs : list V) :
  List.length ks = List.length vs -> Dict.keys (combine ks vs) = ks.
Proof.
  revert vs. induction ks as [|k ks IH]; intros [|v vs] Hlen; simpl in *;
    try discriminate; [reflexivity|].
  f_equal. apply IH. now injection Hlen.
Qed.

Lemma in_combine_swap {A B} (a : list A) (b : list B) (x : A) (y : B) :
  In (x, y) (combine a b) <-> In (y, x) (combine b a).
Proof.
  revert b. induction a as [|a0 a IH]; intros [|b0 b]; simpl; try tauto.
  rewrite IH. split; (intros [[= -> ->]|H]; [now left | now right]).
Qed.

(** Where the index count starts at a natural number and no name is
    repeated, the dict with names as keys and the dict with indices as
    keys are inverse to each other. *)
Lemma get_dict_names_ids_inverse (l : list string) (starts_with : nat)
    (name index : string) :
  NoDup l ->
  Dict.get name (_get_dict l true starts_with) = Some index
  <-> Dict.get index (_get_dict l false starts_with) = Some name.
Proof.
  intros Hnd.
  rewrite (_get_dict_name_as_key l starts_with Hnd), _get_dict_index_as_key.
  assert (Hlen : List.length l
                 = List.length (map str (seq starts_with (List.length l))))
    by now rewrite length_map, length_seq.
  rewrite get_In_NoDup by now rewrite keys_combine.
  rewrite get_In_NoDup.
  - apply in_combine_swap.
  - rewrite keys_combine by now symmetry.
    apply NoDup_map_str, seq_NoDup.
Qed.

(** ** The category ids *)

(** X3. In every state of a registry and for every choice of [init] and
    [filtered], the dict that [get_categories] returns with indices as
    keys numbers the list it returns with [as_dict=False]: its keys are
    ["1"], ..., ["n"] in this order, without gap, and its values are the
    elements of that list in their order. *)
Theorem get_categories_ids_dense
    (self : DatasetCategories) (name_as_key init filtered : bool) :
  exists l,
    get_categories self false name_as_key init filtered = AsList l
    /\ get_categories self true false init filtered
       = AsDict (combine (map str (seq 1 (List.length l))) l)
    /\ iter_view (get_categories self true false init filtered)
       = map str (seq 1 (List.length l)).
Proof.
  assert (H : forall l, exists l0,
             AsList l = AsList l0
             /\ AsDict (_get_dict l false 1)
                = AsDict (combine (map str (seq 1 (List.length l0))) l0)
             /\ iter_view (AsDict (_get_dict l false 1))
                = map str (seq 1 (List.length l0))).
  { intros l. exists l. rewrite _get_dict_index_as_key.
    repeat split. simpl. apply keys_combine.
    now rewrite length_map, length_seq. }
  unfold get_categories.
  destruct init; [apply H|].
  destruct filtered; [|apply H].
  destruct (_categories_filter_update self); apply H.
Qed.

(** With [as_dict=True], [get_categories] gives the dict of the list it
    returns with [as_dict=False], the index count starting at 1. *)
Lemma get_categories_as_dict (self : DatasetCategories)
    (name_as_key init filtered : bool) (l : list string) :
  get_categories self false false init filtered = AsList l ->
  get_categories self true name_as_key init filtered
  = AsDict (_get_dict l name_as_key 1).
Proof.
  unfold get_categories.
  destruct init; [now intros [= <-]|].
  destruct filtered; [|now intros [= <-]].
  destruct (_categories_filter_update self); now intros [= <-].
Qed.

(** X1. In every state of a registry and for every choice of [init] and
    [filtered]: if the list that [get_categories] returns with
    [as_dict=False] has no repeated name, its dict with names as keys and
    its dict with indices as keys are inverse to each other; a name has
    the id [k] in the first exactly when [k] has that name in the
    second. *)
Theorem get_categories_names_ids_inverse
    (self : DatasetCategories) (init filtered : bool) (l : list string) :
  get_categories self false false init filtered = AsList l ->
  NoDup l ->
  exists by_name by_id,
    get_categories self true true init filtered = AsDict by_name
    /\ get_categories self true false init filtered = AsDict by_id
    /\ forall name index,
         Dict.get name by_name = Some index <-> Dict.get index by_id = Some name.
Proof.
  intros Hl Hnd. exists (_get_dict l true 1), (_get_dict l false 1).
  split; [now apply get_categories_as_dict|].
  split; [now apply get_categories_as_dict|].
  intros name index. now apply get_dict_names_ids_inverse.
Qed.

Lemma get_categories_names_ids_inverse_witness :
  exists by_name by_id,
    get_categories
      (set_cat_to_sub_cat
         (__post_init__ ["cat1"; "cat2"] [("cat1", [("s", ["a"; "b"])])])
         [("cat1", "s")])
      true true false false = AsDict by_name
    /\ get_categories
         (set_cat_to_sub_cat
            (__post_init__ ["cat1"; "cat2"] [("cat1", [("s", ["a"; "b"])])])
            [("cat1", "s")])
         true false false false = AsDict by_id
    /\ forall name index,
         Dict.get name by_name = Some index <-> Dict.get index by_id = Some name.
Proof.
  apply (get_categories_names_ids_inverse
           (set_cat_to_sub_cat
              (__post_init__ ["cat1"; "cat2"] [("cat1", [("s", ["a"; "b"])])])
              [("cat1", "s")])
           false false ["a"; "b"; "cat2"]).
  - reflexivity.
  - repeat constructor; simpl; intuition discriminate.
Defined.

(** X2. In every state of a registry and for every choice of [init] and
    [filtered]: a name that is repeated in the list that
    [get_categories] returns with [as_dict=False] is one entry of its
    dict with names as keys; the keys are the names in the order of their
    first appearance, and a name has the id of its last occurrence, its
    position in the list counted from 1. *)
Theorem get_categories_repeated_name
    (self : DatasetCategories) (init filtered : bool)
    (l1 l2 : list string) (x : string) :
  get_categories self false false init filtered = AsList (l1 ++ x :: l2) ->
  ~ In x l2 ->
  exists by_name,
    get_categories self true true init filtered = AsDict by_name
    /\ Dict.get x by_name = Some (str (1 + List.length l1))
    /\ Dict.keys by_name = stable_dedup (l1 ++ x :: l2).
Proof.
  intros Hl Hx. exists (_get_dict (l1 ++ x :: l2) true 1).
  split; [now apply get_categories_as_dict|].
  now apply get_dict_names_last.
Qed.

Lemma get_categories_repeated_name_witness :
  exists by_name,
    get_categories
      (set_cat_to_sub_cat
         (__post_init__ ["cat1"; "a"] [("cat1", [("s", ["a"; "b"])])])
         [("cat1", "s")])
      true true false false = AsDict by_name
    /\ Dict.get "a" by_name = Some "3"
    /\ Dict.keys by_name = ["a"; "b"].
Proof.
  apply (get_categories_repeated_name
           (set_cat_to_sub_cat
              (__post_init__ ["cat1"; "a"] [("cat1", [("s", ["a"; "b"])])])
              [("cat1", "s")])
           false false ["a"; "b"] [] "a").
  - reflexivity.
  - intros [].
Defined.

(** ** Sequences of calls *)

(** X4. Neither flag is ever reset: after a sequence of calls a registry
    is filtered exactly if it was before or one of the calls is
    [filter_categories], and has a substitution exactly if it had one
    before or one of the calls is [set_cat_to_sub_cat]. *)
Theorem flags_after_calls (self : DatasetCategories) (cs : list call) :
  is_filtered (do_calls self cs) = is_filtered self || existsb is_filter_call cs
  /\ is_cat_to_sub_cat (do_calls self cs)
     = is_cat_to_sub_cat self || existsb is_substitution_call cs.
Proof.
  unfold do_calls. revert self.
  induction cs as [|c cs IH]; intros self; simpl.
  - now rewrite !orb_false_r.
  - destruct (IH (do_call self c)) as [-> ->].
    destruct c; simpl; unfold is_filtered, is_cat_to_sub_cat; simpl;
      rewrite ?orb_true_r, ?orb_false_r; split; reflexivity.
Qed.

Lemma set_cat_to_sub_cat_from_init (a b : DatasetCategories) (m : Dict.t string) :
  init_categories a = init_categories b ->
  init_sub_categories a = init_sub_categories b ->
  _categories_update (set_cat_to_sub_cat a m)
  = _categories_update (set_cat_to_sub_cat b m).
Proof.
  intros Hic Hisc. unfold set_cat_to_sub_cat, get_categories.
  cbn [_categories_update init_categories init_sub_categories].
  now rewrite Hic, Hisc.
Qed.

(** X5. Substitutions do not accumulate and filters do not touch the
    categories: after a sequence of calls [_categories_update] is what
    the last [set_cat_to_sub_cat] of the sequence alone computes from the
    registry, its mapping is the one that [cat_to_sub_cat] returns, and
    without such a call both are as before. *)
Theorem last_substitution_wins (self : DatasetCategories) (cs : list call) :
  _categories_update (do_calls self cs)
  = match last_substitution cs with
    | Some m => _categories_update (set_cat_to_sub_cat self m)
    | None => _categories_update self
    end
  /\ cat_to_sub_cat (do_calls self cs)
     = match last_substitution cs with
       | Some m => Some m
       | None => cat_to_sub_cat self
       end.
Proof.
  unfold do_calls. revert self.
  induction cs as [|c cs IH]; intros self; simpl; [split; reflexivity|].
  destruct (IH (do_call self c)) as [Hu Hm]. rewrite Hu, Hm.
  destruct (last_substitution cs) as [m|].
  - split; [|reflexivity].
    destruct (do_call_init self c) as [Hic Hisc].
    now apply set_cat_to_sub_cat_from_init.
  - destruct c; split; reflexivity.
Qed.

(** ** More on substitution *)

Lemma stable_dedup_NoDup_id (l : list string) : NoDup l -> stable_dedup l = l.
Proof.
  induction 1 as [|x l Hx Hnd IH]; simpl; [reflexivity|].
  rewrite IH. f_equal.
  rewrite <- (filter_true l) at 2. apply filter_ext_in.
  intros y Hy. destruct (String.eqb_spec y x) as [->|]; [contradiction | reflexivity].
Qed.

Lemma categories_update_after_substitution (self : DatasetCategories)
    (m : Dict.t string) :
  _categories_update (set_cat_to_sub_cat self m)
  = List.concat
      (map (fun cat =>
              Dict.get_default (Dict.get_default cat cat m) [cat]
                (Dict.get_default cat [(cat, [cat])] (init_sub_categories self)))
           (stable_dedup (init_categories self))).
Proof.
  unfold set_cat_to_sub_cat, get_categories, iter_view.
  cbn [_categories_update init_categories init_sub_categories].
  now rewrite keys_get_dict_names.
Qed.

(** X6. Let no category that the mapping leaves out have, in its own
    definition, a sub-category that bears the category's name.  Then
    [set_cat_to_sub_cat] stores the concatenation of the blocks of the
    categories: the values of the chosen sub-category for a listed
    category whose definition has the chosen key, the category alone
    otherwise.  The categories are taken from [init_categories] in their
    order, a repeated one only at its first place. *)
Theorem set_cat_to_sub_cat_dedup_blocks
    (self : DatasetCategories) (m : Dict.t string) :
  (forall cat d, In cat (init_categories self) -> Dict.get cat m = None ->
     Dict.get cat (init_sub_categories self) = Some d -> Dict.get cat d = None) ->
  _categories_update (set_cat_to_sub_cat self m)
  = List.concat (map (substitution_block (init_sub_categories self) m)
                     (stable_dedup (init_categories self))).
Proof.
  intros Hown. rewrite categories_update_after_substitution.
  f_equal. apply map_ext_in. intros cat Hin.
  apply comprehension_item_block. intros Hm d Hd.
  apply (Hown cat d); [now apply stable_dedup_In | assumption | assumption].
Qed.

Lemma set_cat_to_sub_cat_dedup_blocks_witness :
  _categories_update
    (set_cat_to_sub_cat
       (__post_init__ ["cell"; "item"; "cell"]
          [("cell", [("head", ["head"; "body"])]); ("item", [("row_col", ["row"; "col"])])])
       [("item", "row_col")])
  = ["cell"; "row"; "col"].
Proof.
  apply (set_cat_to_sub_cat_dedup_blocks
           (__post_init__ ["cell"; "item"; "cell"]
              [("cell", [("head", ["head"; "body"])]); ("item", [("row_col", ["row"; "col"])])])
           [("item", "row_col")]).
  simpl. intros cat d [<-|[<-|[<-|[]]]] Hm Hd;
    try discriminate Hm; injection Hd as <-; reflexivity.
Defined.

(** X7. A substitution with the empty mapping gives the categories back:
    if [init_categories] has no repeated name and no category has a
    sub-category of its own name, [set_cat_to_sub_cat({})] leaves
    [_categories_update] equal to [init_categories]. *)
Theorem set_cat_to_sub_cat_empty_mapping_identity (self : DatasetCategories) :
  NoDup (init_categories self) ->
  (forall cat d, In cat (init_categories self) ->
     Dict.get cat (init_sub_categories self) = Some d -> Dict.get cat d = None) ->
  _categories_update (set_cat_to_sub_cat self []) = init_categories self.
Proof.
  intros Hnd Hown. rewrite categories_update_after_substitution.
  rewrite (stable_dedup_NoDup_id _ Hnd).
  induction (init_categories self) as [|cat l IH]; [reflexivity|].
  cbn [map List.concat].
  rewrite comprehension_item_block
    by (intros _ d Hd; apply (Hown cat d); [now left | assumption]).
  rewrite IH.
  - reflexivity.
  - now apply NoDup_cons_iff in Hnd.
  - intros c d Hc. apply Hown. now right.
Qed.

Lemma set_cat_to_sub_cat_empty_mapping_identity_witness :
  _categories_update
    (set_cat_to_sub_cat
       (__post_init__ ["cat1"; "cat2"] [("cat1", [("s", ["a"; "b"])])]) [])
  = ["cat1"; "cat2"].
Proof.
  apply (set_cat_to_sub_cat_empty_mapping_identity
           (__post_init__ ["cat1"; "cat2"] [("cat1", [("s", ["a"; "b"])])])).
  - repeat constructor; simpl; intuition discriminate.
  - simpl. intros cat d [<-|[<-|[]]] Hd; [injection Hd as <-; reflexivity|].
    discriminate Hd.
Defined.

(** X8. A substitution invents no name: every name of
    [_categories_update] after [set_cat_to_sub_cat] is one of
    [init_categories] or a value of a sub-category in the definition of
    one of [init_categories]. *)
Theorem set_cat_to_sub_cat_names (self : DatasetCategories) (m : Dict.t string)
    (name : string) :
  In name (_categories_update (set_cat_to_sub_cat self m)) ->
  In name (init_categories self)
  \/ exists cat d sub_cat_key values,
       In cat (init_categories self)
       /\ Dict.get cat (init_sub_categories self) = Some d
       /\ Dict.get sub_cat_key d = Some values
       /\ In name values.
Proof.
  rewrite categories_update_after_substitution, in_concat.
  intros (block & Hblock & Hname).
  apply in_map_iff in Hblock. destruct Hblock as (cat & <- & Hcat).
  apply (proj1 (stable_dedup_In _ _)) in Hcat.
  unfold Dict.get_default in Hname.
  match type of Hname with
  | context [@Dict.get ?V cat (init_sub_categories self)] =>
      destruct (@Dict.get V cat (init_sub_categories self)) as [d|] eqn:Ed
  end.
  - match type of Hname with
    | context [@Dict.get ?V ?k d] =>
        destruct (@Dict.get V k d) as [values|] eqn:Ev
    end.
    + right. exists cat, d. eexists. exists values. repeat split; eassumption.
    + left. destruct Hname as [<-|[]]. assumption.
  - left. simpl in Hname.
    destruct (String.eqb _ cat); destruct Hname as [<-|[]]; assumption.
Qed.

Lemma set_cat_to_sub_cat_names_witness :
  In "a" ["cat1"; "cat2"]
  \/ exists cat d sub_cat_key values,
       In cat ["cat1"; "cat2"]
       /\ Dict.get cat [("cat1", [("s", ["a"; "b"])])] = Some d
       /\ Dict.get sub_cat_key d = Some values
       /\ In "a" values.
Proof.
  apply (set_cat_to_sub_cat_names
           (__post_init__ ["cat1"; "cat2"] [("cat1", [("s", ["a"; "b"])])])
           [("cat1", "s")] "a").
  simpl. now left.
Defined.

(** ** More on [get_sub_categories] *)

Lemma for_each_app {X S} (body : S -> X -> result S) (xs ys : list X) (s : S) :
  for_each body (xs ++ ys) s = (s' <- for_each body xs s ;; for_each body ys s').
Proof.
  revert s. induction xs as [|x xs IH]; intros s; simpl; [reflexivity|].
  destruct (body s x); simpl; [apply IH | reflexivity].
Qed.

(** A loop whose body returns and keeps [P] returns and keeps [P]. *)
Lemma for_each_keeps {X S} (P : S -> Prop) (body : S -> X -> result S)
    (xs : list X) :
  (forall s x, In x xs -> P s -> exists s', body s x = Ok s' /\ P s') ->
  forall s, P s -> exists s', for_each body xs s = Ok s' /\ P s'.
Proof.
  induction xs as [|x xs IH]; intros Hbody s Hs; simpl.
  - now exists s.
  - destruct (Hbody s x (or_introl eq_refl) Hs) as (s1 & -> & Hs1). simpl.
    apply IH; [|assumption]. intros s0 x0 Hin. apply Hbody. now right.
Qed.

Lemma In_keys_set {V} (k name : string) (v : V) (d : Dict.t V) :
  In name (Dict.keys (Dict.set k v d)) -> name = k \/ In name (Dict.keys d).
Proof.
  rewrite DictFacts.keys_set. destruct (mem_list k (Dict.keys d)); [auto|].
  rewrite in_app_iff. simpl. intuition.
Qed.

Lemma In_keys_scan (isc : sub_categories) (cat name : string)
    (m : Dict.t string) (s : Dict.t (list string)) :
  In name (Dict.keys (fold_left (scan_step isc cat) m s)) ->
  name = cat \/ In name (Dict.keys s).
Proof.
  revert s. induction m as [|kv m IH]; intros s; simpl; [auto|].
  intros H. apply IH in H. destruct H as [H|H]; [now left|].
  unfold scan_step in H. destruct (chosen_is_defined isc kv); [|now right].
  now apply In_keys_set in H.
Qed.

(** The entries stored for the names that have a definition of their own. *)
Lemma get_own_definitions (isc : sub_categories) (names : list string)
    (name : string) (ks : list string) :
  Dict.get name
    (fold_left
       (fun (s : Dict.t (list string)) n =>
          match Dict.get n isc with
          | Some d => Dict.set n (Dict.keys d) s
          | None => s
          end)
       names [])
  = Some ks
  <-> In name names /\ exists d, Dict.get name isc = Some d /\ ks = Dict.keys d.
Proof.
  induction names as [|n names IH] using rev_ind.
  - simpl. split; [discriminate | intros [[] _]].
  - rewrite fold_left_app, in_app_iff. simpl.
    destruct (Dict.get n isc) as [d|] eqn:Ed.
    + destruct (String.eqb_spec name n) as [->|Hne].
      * rewrite DictFacts.get_set_same. split.
        -- intros [= <-]. split; [auto|]. now exists d.
        -- intros (_ & d' & Hd' & ->). congruence.
      * rewrite DictFacts.get_set_other by assumption. rewrite IH.
        split; intros [Hin Hd]; (split; [|assumption]); [now left|].
        destruct Hin as [|[->|[]]]; [assumption | contradiction].
    + rewrite IH. split; intros [Hin Hd]; (split; [|assumption]); [now left|].
      destruct Hin as [|[<-|[]]]; [assumption|].
      destruct Hd as (d & Hd & _). congruence.
Qed.

(** X9. Without a substitution ([cat_to_sub_cat] is [None] or empty) and
    asked for names that are all in the category view,
    [get_sub_categories] raises nothing; its result has an entry exactly
    for the requested names that have a definition in
    [init_sub_categories], and the entry lists the keys of that
    definition (the sub-categories, not their values) in their order.  A
    requested name without definition has no entry. *)
Theorem get_sub_categories_without_substitution
    (self : DatasetCategories) (names : list string) :
  truthy (_cat_to_sub_cat self) = false ->
  (forall name, In name names -> In name (current_view self)) ->
  exists result,
    get_sub_categories self (Some (Lst names)) = Ok result
    /\ forall name ks,
         Dict.get name result = Some ks
         <-> In name names
             /\ exists d, Dict.get name (init_sub_categories self) = Some d
                          /\ ks = Dict.keys d.
Proof.
  intros Hinactive Hview. eexists. split.
  - unfold get_sub_categories.
    apply (for_each_pure (sub_categories_of self)
             (fun (s : Dict.t (list string)) n =>
                match Dict.get n (init_sub_categories self) with
                | Some d => Dict.set n (Dict.keys d) s
                | None => s
                end)).
    intros s n Hn. unfold sub_categories_of, mem_view.
    fold (current_view self).
    rewrite (proj2 (mem_list_In _ _) (Hview n Hn)), Hinactive.
    now destruct (Dict.get n (init_sub_categories self)).
  - intros name ks. apply get_own_definitions.
Qed.

Lemma get_sub_categories_without_substitution_witness :
  exists result,
    get_sub_categories
      (__post_init__ ["cat1"; "cat2"] [("cat1", [("s", ["a"; "b"]); ("t", [])])])
      (Some (Lst ["cat2"; "cat1"]))
    = Ok result
    /\ Dict.get "cat1" result = Some ["s"; "t"]
    /\ Dict.get "cat2" result = None.
Proof.
  destruct (get_sub_categories_without_substitution
              (__post_init__ ["cat1"; "cat2"]
                 [("cat1", [("s", ["a"; "b"]); ("t", [])])])
              ["cat2"; "cat1"] eq_refl) as (result & Hres & _).
  - simpl. tauto.
  - exists result. split; [exact Hres|].
    vm_compute in Hres. injection Hres as <-. split; reflexivity.
Defined.

(** X10. Asked for no name, [get_sub_categories] goes through the
    category view itself, so it never raises the assertion error; if
    every category listed in a substitution has a definition it raises
    nothing, and every name that has an entry in its result is in the
    category view. *)
Theorem get_sub_categories_of_view (self : DatasetCategories) :
  (forall msg, get_sub_categories self None <> Raise (AssertionError msg))
  /\ ((forall m key, _cat_to_sub_cat self = Some m -> In key (Dict.keys m) ->
         In key (Dict.keys (init_sub_categories self))) ->
      exists result,
        get_sub_categories self None = Ok result
        /\ forall name, In name (Dict.keys result) -> In name (current_view self)).
Proof.
  unfold get_sub_categories. fold (current_view self). split.
  - intros msg Hraise.
    assert (Hkey : is_KeyError (AssertionError msg)).
    { refine (for_each_raise (fun e => is_KeyError e) (sub_categories_of self)
                (current_view self) _ [] _ Hraise).
      intros s x e Hx. now apply sub_categories_of_in_view. }
    destruct Hkey as [key Hkey]. discriminate Hkey.
  - intros Hkeys.
    apply (for_each_keeps
             (fun s : Dict.t (list string) =>
                forall name, In name (Dict.keys s) -> In name (current_view self))).
    + intros s x Hx Hs. unfold sub_categories_of, mem_view.
      fold (current_view self). rewrite (proj2 (mem_list_In _ _) Hx).
      destruct (Dict.get x (init_sub_categories self)) as [d|].
      * eexists. split; [reflexivity|]. intros name Hname.
        apply In_keys_set in Hname. destruct Hname as [->|]; auto.
      * destruct (_cat_to_sub_cat self) as [[|kv m]|] eqn:Em; cbn [truthy items];
          try (exists s; split; [reflexivity | assumption]).
        rewrite scan_cat_to_sub_cat_eq by (intros key; now apply Hkeys).
        eexists. split; [reflexivity|]. intros name Hname.
        apply In_keys_scan in Hname. destruct Hname as [->|]; auto.
    + intros name [].
Qed.

(** X11. [set_cat_to_sub_cat] accepts a mapping that lists a category
    without definition, [get_sub_categories] does not: asked for a name
    of the category view that has no definition of its own, it raises
    [KeyError] for the first listed category that has no definition in
    [init_sub_categories]. *)
Theorem get_sub_categories_KeyError
    (self : DatasetCategories) (m1 m2 : Dict.t string) (key val name : string) :
  _cat_to_sub_cat self = Some (m1 ++ (key, val) :: m2) ->
  (forall k, In k (Dict.keys m1) -> In k (Dict.keys (init_sub_categories self))) ->
  Dict.get key (init_sub_categories self) = None ->
  In name (current_view self) ->
  Dict.get name (init_sub_categories self) = None ->
  get_sub_categories self (Some (Str name)) = Raise (KeyError key).
Proof.
  intros Hm Hm1 Hkey Hin Hnone.
  unfold get_sub_categories. simpl. rewrite bind_Ok_r.
  unfold sub_categories_of, mem_view. fold (current_view self).
  rewrite (proj2 (mem_list_In _ _) Hin), Hnone, Hm.
  assert (Htruthy : truthy (Some (m1 ++ (key, val) :: m2)) = true)
    by now destruct m1.
  rewrite Htruthy. cbn [items].
  unfold scan_cat_to_sub_cat. rewrite for_each_app.
  fold (scan_cat_to_sub_cat self name m1 []).
  rewrite (scan_cat_to_sub_cat_eq _ _ _ _ Hm1).
  cbn [bind for_each fst snd]. unfold subscript at 1. now rewrite Hkey.
Qed.

Lemma get_sub_categories_KeyError_witness :
  get_sub_categories
    (set_cat_to_sub_cat
       (__post_init__ ["cat1"; "cat2"] [("cat1", [("s", ["a"; "b"])])])
       ([("cat1", "s")] ++ ("cat2", "t") :: []))
    (Some (Str "b"))
  = Raise (KeyError "cat2").
Proof.
  apply (get_sub_categories_KeyError
           (set_cat_to_sub_cat
              (__post_init__ ["cat1"; "cat2"] [("cat1", [("s", ["a"; "b"])])])
              ([("cat1", "s")] ++ ("cat2", "t") :: []))
           [("cat1", "s")] [] "cat2" "t" "b").
  - reflexivity.
  - simpl. tauto.
  - reflexivity.
  - simpl. tauto.
  - reflexivity.
Defined.

Lemma filter_none {A} (p : A -> bool) (l : list A) :
  (forall x, In x l -> p x = false) -> filter p l = [].
Proof.
  induction l as [|x l IH]; intros H; simpl; [reflexivity|].
  rewrite (H x (or_introl eq_refl)). apply IH. intros y Hy. apply H. now right.
Qed.

(** X12. A filter that names none of the current categories leaves an
    empty filtered view: the registry is filtered,
    [get_sub_categories()] returns the empty dict, and
    [get_sub_categories] raises the assertion error for every name. *)
Theorem filter_categories_nothing_left
    (self : DatasetCategories) (X : str_or_list) :
  (forall name, In name (requested X) -> ~ In name (_categories_update self)) ->
  is_filtered (filter_categories self X) = true
  /\ get_categories (filter_categories self X) false false false true = AsList []
  /\ get_categories (filter_categories self X) true false false true = AsDict []
  /\ get_sub_categories (filter_categories self X) None = Ok []
  /\ forall name,
       get_sub_categories (filter_categories self X) (Some (Str name))
       = Raise (AssertionError (not_in_categories_msg name)).
Proof.
  intros Hnone.
  assert (Hf : _categories_filter_update (filter_categories self X) = Some []).
  { unfold filter_categories. cbn [_categories_filter_update]. f_equal.
    replace (match X with Str s => [s] | Lst l => l end) with (requested X)
      by now destruct X.
    apply filter_none. intros name Hname. apply mem_list_not_In.
    intros Hreq. now apply (Hnone name). }
  split; [unfold is_filtered; now rewrite Hf|].
  unfold get_sub_categories, sub_categories_of, mem_view, get_categories.
  rewrite Hf. repeat split.
Qed.

Lemma filter_categories_nothing_left_witness :
  get_sub_categories
    (filter_categories
       (__post_init__ ["cat1"; "cat2"] [("cat1", [("s", ["a"; "b"])])])
       (Lst ["a"; "b"]))
    None
  = Ok [].
Proof.
  apply (filter_categories_nothing_left
           (__post_init__ ["cat1"; "cat2"] [("cat1", [("s", ["a"; "b"])])])
           (Lst ["a"; "b"])).
  intros name [<-|[<-|[]]] [H|[H|[]]]; discriminate H.
Defined.

(** ** More on merging *)

(** X13. For a non-empty sequence of inputs, [_categories_update] of the
    merged registry (the list that [get_categories(as_dict=False)]
    returns) holds, each once, exactly the names of the inputs'
    [_categories_update]. *)
Theorem get_merged_categories_update_union
    (set_iter : list string -> list string)
    (c : DatasetCategories) (cs : list DatasetCategories) :
  set_order set_iter ->
  exists merged,
    get_merged_categories set_iter (c :: cs) = Ok merged
    /\ get_categories merged false false false false
       = AsList (_categories_update merged)
    /\ NoDup (_categories_update merged)
    /\ forall name, In name (_categories_update merged)
         <-> exists c', In c' (c :: cs) /\ In name (_categories_update c').
Proof.
  intros Horder.
  eexists. split; [apply (get_merged_categories_eq set_iter Horder)|].
  cbn [_categories_update]. split; [reflexivity|].
  split; [apply Horder|].
  intros name. rewrite (proj2 (Horder _) name), in_concat. split.
  - intros (l & Hl & Hname). apply in_map_iff in Hl.
    destruct Hl as (c' & <- & Hc'). now exists c'.
  - intros (c' & Hc' & Hname). exists (_categories_update c').
    split; [now apply in_map | assumption].
Qed.

Lemma get_merged_categories_update_union_witness :
  set_order (nodup string_dec)
  /\ exists merged,
       get_merged_categories (nodup string_dec)
         [set_cat_to_sub_cat
            (__post_init__ ["cat1"; "cat2"] [("cat1", [("s", ["a"; "b"])])])
            [("cat1", "s")];
          __post_init__ ["cat2"; "cat3"] []]
       = Ok merged
       /\ NoDup (_categories_update merged).
Proof.
  split; [exact set_order_nodup|].
  destruct (get_merged_categories_update_union (nodup string_dec)
              (set_cat_to_sub_cat
                 (__post_init__ ["cat1"; "cat2"] [("cat1", [("s", ["a"; "b"])])])
                 [("cat1", "s")])
              [__post_init__ ["cat2"; "cat3"] []]
              set_order_nodup) as (merged & Hm & _ & Hnd & _).
  exists merged. split; assumption.
Defined.

(** X14. When no input has been changed by a substitution (in each one
    [_categories_update] is [init_categories]), the categories of the
    merged registry are its [init_categories] up to their order. *)
Theorem get_merged_categories_update_permutation
    (set_iter : list string -> list string)
    (c : DatasetCategories) (cs : list DatasetCategories) :
  set_order set_iter ->
  (forall c', In c' (c :: cs) -> _categories_update c' = init_categories c') ->
  exists merged,
    get_merged_categories set_iter (c :: cs) = Ok merged
    /\ Permutation (_categories_update merged) (init_categories merged).
Proof.
  intros Horder Hfresh.
  eexists. split; [apply (get_merged_categories_eq set_iter Horder)|].
  cbn [_categories_update init_categories].
  apply NoDup_Permutation; [apply Horder | apply stable_dedup_NoDup|].
  intros name. rewrite (proj2 (Horder _) name), stable_dedup_In.
  replace (map _categories_update (c :: cs)) with (map init_categories (c :: cs));
    [reflexivity|].
  apply map_ext_in. intros c' Hc'. symmetry. now apply Hfresh.
Qed.

Lemma get_merged_categories_update_permutation_witness :
  set_order (nodup string_dec)
  /\ exists merged,
       get_merged_categories (nodup string_dec)
         [__post_init__ ["cat1"; "cat2"] [("cat1", [("s", ["x"; "y"])])];
          __post_init__ ["cat2"; "cat3"] []]
       = Ok merged
       /\ Permutation (_categories_update merged) (init_categories merged).
Proof.
  split; [exact set_order_nodup|].
  apply (get_merged_categories_update_permutation (nodup string_dec)
           (__post_init__ ["cat1"; "cat2"] [("cat1", [("s", ["x"; "y"])])])
           [__post_init__ ["cat2"; "cat3"] []]
           set_order_nodup).
  intros c' [<-|[<-|[]]]; reflexivity.
Defined.

Lemma stable_dedup_app (l1 l2 : list string) :
  stable_dedup (l1 ++ l2)
  = stable_dedup l1
    ++ stable_dedup (filter (fun x => negb (mem_list x (stable_dedup l1))) l2).
Proof.
  rewrite <- (fold_add_label_nil (l1 ++ l2)), fold_left_app.
  now rewrite fold_add_label_nil, fold_add_label.
Qed.

Lemma combine_app_same {A B} (a1 a2 : list A) (b1 b2 : list B) :
  List.length a1 = List.length b1 ->
  combine (a1 ++ a2) (b1 ++ b2) = combine a1 b1 ++ combine a2 b2.
Proof.
  revert b1. induction a1 as [|x a1 IH]; intros [|y b1] Hlen; simpl in *;
    try discriminate; [reflexivity|].
  f_equal. apply IH. now injection Hlen.
Qed.

Lemma get_app_l {V} (d1 d2 : Dict.t V) (k : string) (v : V) :
  Dict.get k d1 = Some v -> Dict.get k (d1 ++ d2) = Some v.
Proof.
  induction d1 as [|[k' v'] d1 IH]; simpl; [discriminate|].
  destruct (String.eqb k k'); [auto | exact IH].
Qed.

(** X15. The merged registry keeps the initial ids of its first input: if
    the [init_categories] of the first input have no repeated name, they
    are the beginning of the merged [init_categories], and every entry of
    the first input's [get_categories(init=True)] is an entry of the
    merged registry's. *)
Theorem get_merged_categories_keeps_first_ids
    (set_iter : list string -> list string)
    (c : DatasetCategories) (cs : list DatasetCategories) :
  set_order set_iter ->
  NoDup (init_categories c) ->
  exists merged,
    get_merged_categories set_iter (c :: cs) = Ok merged
    /\ (exists rest, init_categories merged = init_categories c ++ rest)
    /\ exists d d',
         get_categories c true false true false = AsDict d
         /\ get_categories merged true false true false = AsDict d'
         /\ forall index name,
              Dict.get index d = Some name -> Dict.get index d' = Some name.
Proof.
  intros Horder Hnd.
  eexists. split; [apply (get_merged_categories_eq set_iter Horder)|].
  cbn [init_categories get_categories map List.concat].
  rewrite stable_dedup_app, (stable_dedup_NoDup_id _ Hnd).
  split; [eexists; reflexivity|].
  do 2 eexists. split; [reflexivity|]. split; [reflexivity|].
  intros index name. rewrite !_get_dict_index_as_key.
  rewrite length_app, seq_app, map_app.
  rewrite combine_app_same by now rewrite length_map, length_seq.
  apply get_app_l.
Qed.

Lemma get_merged_categories_keeps_first_ids_witness :
  set_order (nodup string_dec)
  /\ exists merged,
       get_merged_categories (nodup string_dec)
         [__post_init__ ["cat2"; "cat1"] [];
          __post_init__ ["cat1"; "cat3"; "cat2"] []]
       = Ok merged
       /\ exists rest, init_categories merged = ["cat2"; "cat1"] ++ rest.
Proof.
  split; [exact set_order_nodup|].
  destruct (get_merged_categories_keeps_first_ids (nodup string_dec)
              (__post_init__ ["cat2"; "cat1"] [])
              [__post_init__ ["cat1"; "cat3"; "cat2"] []]
              set_order_nodup) as (merged & Hm & Hrest & _).
  - repeat constructor; simpl; intuition discriminate.
  - exists merged. split; assumption.
Defined.

(** * Properties of [unpackbits_masks] *)

Lemma pack_unpack_element (m : Z) :
  (0 <= m < 256)%Z -> pack_element (unpack_element m) = m.
Proof.
  intros Hm.
  assert (Hall : forallb
                   (fun n => Z.eqb (pack_element (unpack_element (Z.of_nat n)))
                                   (Z.of_nat n))
                   (seq 0 256) = true) by (vm_compute; reflexivity).
  rewrite forallb_forall in Hall.
  specialize (Hall (Z.to_nat m)).
  rewrite Z2Nat.id in Hall by lia.
  apply Z.eqb_eq, Hall, in_seq. lia.
Qed.

Lemma unpack_pack_element (b7 b6 b5 b4 b3 b2 b1 b0 : bool) :
  unpack_element (pack_element [b7; b6; b5; b4; b3; b2; b1; b0])
  = [b7; b6; b5; b4; b3; b2; b1; b0].
Proof.
  destruct b7, b6, b5, b4, b3, b2, b1, b0; vm_compute; reflexivity.
Qed.

Lemma packbits_unpack_cons (m : Z) (bs : list bool) :
  packbits (unpack_element m ++ bs)
  = pack_element (unpack_element m) :: packbits bs.
Proof. reflexivity. Qed.

Lemma packbits_unpack_row (row : list Z) :
  Forall (fun m => (0 <= m < 256)%Z) row ->
  packbits (List.concat (map unpack_element row)) = row.
Proof.
  induction 1 as [|m row Hm Hrow IH]; [reflexivity|].
  cbn [map List.concat]. rewrite packbits_unpack_cons, IH.
  now rewrite pack_unpack_element.
Qed.

Lemma map_fixed {A} (f : A -> A) (l : list A) :
  Forall (fun x => f x = x) l -> map f l = l.
Proof.
  induction 1 as [|x l Hx Hl IH]; simpl; [reflexivity|]. now rewrite Hx, IH.
Qed.

(** X16. [unpackbits_masks] loses nothing: packing the booleans of every
    row of its result, eight at a time with the first one as the most
    significant bit ([np.packbits]), gives the [uint8] tensor back. *)
Theorem packbits_unpackbits_masks (masks : list (list (list Z))) :
  Forall (Forall (Forall (fun m => (0 <= m < 256)%Z))) masks ->
  map (map packbits) (unpackbits_masks masks) = masks.
Proof.
  intros Hmasks. unfold unpackbits_masks. rewrite map_map.
  apply map_fixed. eapply Forall_impl; [|exact Hmasks].
  intros image Himage. rewrite map_map.
  apply map_fixed. eapply Forall_impl; [|exact Himage].
  intros row Hrow. now apply packbits_unpack_row.
Qed.

Lemma packbits_unpackbits_masks_witness :
  map (map packbits) (unpackbits_masks [[[255; 0]; [129; 7]]; [[1; 2]; [3; 4]]]%Z)
  = [[[255; 0]; [129; 7]]; [[1; 2]; [3; 4]]]%Z.
Proof.
  apply (packbits_unpackbits_masks [[[255; 0]; [129; 7]]; [[1; 2]; [3; 4]]]%Z).
  repeat constructor; lia.
Defined.

Lemma unpack_packbits_row (k : nat) (bs : list bool) :
  List.length bs = 8 * k ->
  List.concat (map unpack_element (packbits bs)) = bs.
Proof.
  revert bs. induction k as [|k IH]; intros bs Hlen.
  - destruct bs; [reflexivity | discriminate Hlen].
  - destruct bs as [|b7 [|b6 [|b5 [|b4 [|b3 [|b2 [|b1 [|b0 bs]]]]]]]];
      try (simpl in Hlen; lia).
    cbn [packbits map List.concat].
    rewrite unpack_pack_element, IH by (simpl in Hlen; lia).
    reflexivity.
Qed.

(** X17. [unpackbits_masks] is the reverse of [np.packbits]: applied to
    the tensor obtained by packing rows of booleans whose length is a
    multiple of eight, it gives these rows back. *)
Theorem unpackbits_masks_packbits (unpacked : list (list (list bool))) :
  Forall (Forall (fun row => exists k, List.length row = 8 * k)) unpacked ->
  unpackbits_masks (map (map packbits) unpacked) = unpacked.
Proof.
  intros Hrows. unfold unpackbits_masks. rewrite map_map.
  apply map_fixed. eapply Forall_impl; [|exact Hrows].
  intros image Himage. rewrite map_map.
  apply map_fixed. eapply Forall_impl; [|exact Himage].
  intros row [k Hk]. now apply (unpack_packbits_row k).
Qed.

Lemma unpackbits_masks_packbits_witness :
  unpackbits_masks
    (map (map packbits)
       [[[true; false; false; false; false; false; false; true;
          false; false; false; false; false; true; true; true]]])
  = [[[true; false; false; false; false; false; false; true;
       false; false; false; false; false; true; true; true]]].
Proof.
  apply (unpackbits_masks_packbits
           [[[true; false; false; false; false; false; false; true;
              false; false; false; false; false; true; true; true]]]).
  repeat constructor. exists 2. reflexivity.
Defined.

Lemma length_unpack_row (row : list Z) :
  List.length (List.concat (map unpack_element row)) = 8 * List.length row.
Proof.
  induction row as [|m row IH]; [reflexivity|].
  cbn [map List.concat]. rewrite length_app, IH. simpl. lia.
Qed.

(** X18. The result of [unpackbits_masks] on a tensor of shape N x H x W
    has the shape N x H x 8W: as many images, as many rows in each image,
    and in each row eight times as many entries. *)
Theorem unpackbits_masks_shape (masks : list (list (list Z))) :
  List.length (unpackbits_masks masks) = List.length masks
  /\ map (@List.length _) (unpackbits_masks masks) = map (@List.length _) masks
  /\ map (map (@List.length _)) (unpackbits_masks masks)
     = map (map (fun row => 8 * List.length row)) masks.
Proof.
  unfold unpackbits_masks. split; [apply length_map|]. split.
  - rewrite map_map. apply map_ext. intros image. apply length_map.
  - rewrite map_map. apply map_ext. intros image.
    rewrite map_map. apply map_ext. intros row. apply length_unpack_row.
Qed.

(** * Properties of [get_tensorflow_requirement] *)

Section TensorflowRequirementFacts.

Variable version : string -> option string.

Lemma find_tf_version_first (before after : list string) (pkg v dflt : string) :
  (forall p, In p before -> version p = None) ->
  version pkg = Some v ->
  find_tf_version version (before ++ pkg :: after) dflt = v.
Proof.
  intros Hbefore Hpkg. induction before as [|p before IH]; simpl.
  - now rewrite Hpkg.
  - rewrite (Hbefore p (or_introl eq_refl)). apply IH.
    intros q Hq. apply Hbefore. now right.
Qed.

Lemma find_tf_version_cases (pkgs : list string) (dflt : string) :
  ((forall p, In p pkgs -> version p = None)
   /\ find_tf_version version pkgs dflt = dflt)
  \/ exists before pkg after v,
       pkgs = before ++ pkg :: after
       /\ (forall p, In p before -> version p = None)
       /\ version pkg = Some v
       /\ find_tf_version version pkgs dflt = v.
Proof.
  induction pkgs as [|p pkgs IH]; simpl.
  - left. split; [intros p [] | reflexivity].
  - destruct (version p) as [v|] eqn:Ep.
    + right. exists [], p, pkgs, v. repeat split; auto. intros q [].
    + destruct IH as [[Hnone Hd]|(before & pkg & after & v & -> & Hb & Hv & Hf)].
      * left. split; [|assumption]. intros q [<-|Hq]; auto.
      * right. exists (p :: before), pkg, after, v. repeat split; auto.
        intros q [<-|Hq]; auto.
Qed.

End TensorflowRequirementFacts.

Section TensorflowOutcome.

Variable _TF_AVAILABLE : bool.
Variable version : string -> option string.
Variable Version : Type.
Variable parse : string -> option Version.
Variable version_lt : Version -> Version -> bool.

Local Abbreviation outcome :=
  (get_tensorflow_requirement _TF_AVAILABLE version parse version_lt).

Lemma tf_requirement_returns (r : string * bool * string) :
  outcome = Returns r -> fst (fst r) = "tensorflow" /\ snd r = _TF_ERR_MSG.
Proof.
  unfold get_tensorflow_requirement, tf_available.
  destruct _TF_AVAILABLE; [|intros [= <-]; split; reflexivity].
  destruct (negb _); [|intros [= <-]; split; reflexivity].
  destruct (parse _) as [parsed|]; [|discriminate].
  destruct (parse "2.4.1") as [required|]; [|discriminate].
  destruct (version_lt parsed required); intros [= <-]; split; reflexivity.
Qed.

(** The outcome once the first installed candidate is known. *)
Lemma tf_requirement_first_installed
    (before after : list string) (pkg v : string) :
  _TF_AVAILABLE = true ->
  candidates = before ++ pkg :: after ->
  (forall p, In p before -> version p = None) ->
  version pkg = Some v ->
  v <> "0.0" ->
  outcome
  = match parse v with
    | None => RaisesInvalidVersion v
    | Some parsed =>
        match parse "2.4.1" with
        | None => RaisesInvalidVersion "2.4.1"
        | Some required =>
            if version_lt parsed required
            then Returns ("tensorflow", false, _TF_ERR_MSG)
            else Returns ("tensorflow", true, _TF_ERR_MSG)
        end
    end.
Proof.
  intros Hflag Hc Hb Hv Hne.
  unfold get_tensorflow_requirement, tf_available.
  rewrite Hflag, Hc, (find_tf_version_first version before after pkg v "0.0" Hb Hv).
  apply String.eqb_neq in Hne. now rewrite Hne.
Qed.

Lemma tf_requirement_not_satisfied :
  _TF_AVAILABLE = false
  \/ (forall p, In p candidates -> version p = None)
  \/ find_tf_version version candidates "0.0" = "0.0" ->
  outcome = Returns ("tensorflow", false, _TF_ERR_MSG).
Proof.
  unfold get_tensorflow_requirement, tf_available.
  intros [->|H]; [reflexivity|].
  assert (Hf : find_tf_version version candidates "0.0" = "0.0").
  { destruct H as [Hnone|H]; [|exact H].
    destruct (find_tf_version_cases version candidates "0.0")
      as [[_ Hd]|(before & pkg & after & v & Hc & _ & Hv & _)]; [exact Hd|].
    rewrite Hnone in Hv; [discriminate|].
    rewrite Hc. apply in_or_app. right. now left. }
  rewrite Hf. now destruct _TF_AVAILABLE.
Qed.

(** The function leaves the branch of the first installed candidate only
    if there is one with a version other than ["0.0"]. *)
Lemma tf_requirement_decided :
  outcome <> Returns ("tensorflow", false, _TF_ERR_MSG) ->
  _TF_AVAILABLE = true
  /\ exists before pkg after v,
       candidates = before ++ pkg :: after
       /\ (forall p, In p before -> version p = None)
       /\ version pkg = Some v
       /\ v <> "0.0".
Proof.
  intros Hout.
  assert (Hflag : _TF_AVAILABLE = true).
  { destruct (bool_dec _TF_AVAILABLE true) as [H|H]; [exact H|].
    exfalso. apply Hout. apply tf_requirement_not_satisfied. left.
    now apply not_true_is_false. }
  split; [exact Hflag|].
  destruct (find_tf_version_cases version candidates "0.0")
    as [[Hnone _]|(before & pkg & after & v & Hc & Hb & Hv & Hf)].
  - exfalso. apply Hout. apply tf_requirement_not_satisfied. right. now left.
  - exists before, pkg, after, v. repeat split; auto.
    intros ->. apply Hout. apply tf_requirement_not_satisfied. right. now right.
Qed.

Lemma tf_requirement_satisfied :
  outcome = Returns ("tensorflow", true, _TF_ERR_MSG)
  <-> _TF_AVAILABLE = true
      /\ exists before pkg after v parsed required,
           candidates = before ++ pkg :: after
           /\ (forall p, In p before -> version p = None)
           /\ version pkg = Some v
           /\ v <> "0.0"
           /\ parse v = Some parsed
           /\ parse "2.4.1" = Some required
           /\ version_lt parsed required = false.
Proof.
  split.
  - intros Hout.
    destruct tf_requirement_decided
      as (Hflag & before & pkg & after & v & Hc & Hb & Hv & Hne).
    { rewrite Hout. discriminate. }
    split; [exact Hflag|].
    rewrite (tf_requirement_first_installed before after pkg v Hflag Hc Hb Hv Hne)
      in Hout.
    destruct (parse v) as [parsed|] eqn:Ep; [|discriminate Hout].
    destruct (parse "2.4.1") as [required|] eqn:Er; [|discriminate Hout].
    destruct (version_lt parsed required) eqn:Elt; [discriminate Hout|].
    exists before, pkg, after, v, parsed, required. repeat split; auto.
  - intros (Hflag & before & pkg & after & v & parsed & required
            & Hc & Hb & Hv & Hne & Hp & Hr & Hlt).
    rewrite (tf_requirement_first_installed before after pkg v Hflag Hc Hb Hv Hne).
    now rewrite Hp, Hr, Hlt.
Qed.

Lemma tf_requirement_raises :
  (exists text, outcome = RaisesInvalidVersion text)
  <-> _TF_AVAILABLE = true
      /\ exists before pkg after v,
           candidates = before ++ pkg :: after
           /\ (forall p, In p before -> version p = None)
           /\ version pkg = Some v
           /\ v <> "0.0"
           /\ (parse v = None \/ parse "2.4.1" = None).
Proof.
  split.
  - intros [text Hout].
    destruct tf_requirement_decided
      as (Hflag & before & pkg & after & v & Hc & Hb & Hv & Hne).
    { rewrite Hout. discriminate. }
    split; [exact Hflag|].
    rewrite (tf_requirement_first_installed before after pkg v Hflag Hc Hb Hv Hne)
      in Hout.
    exists before, pkg, after, v. repeat split; auto.
    destruct (parse v) as [parsed|]; [|now left].
    destruct (parse "2.4.1") as [required|]; [|now right].
    destruct (version_lt parsed required); discriminate Hout.
  - intros (Hflag & before & pkg & after & v & Hc & Hb & Hv & Hne & Hparse).
    rewrite (tf_requirement_first_installed before after pkg v Hflag Hc Hb Hv Hne).
    destruct (parse v) as [parsed|]; [|now eexists].
    destruct Hparse as [Hp|Hr]; [discriminate Hp|].
    rewrite Hr. now eexists.
Qed.

End TensorflowOutcome.

(** X19. When [get_tensorflow_requirement] returns, the name is
    ["tensorflow"] and the message the fixed one.  It reports the
    requirement as satisfied exactly if the module flag says that
    tensorflow can be imported and the first of the candidate
    distributions that is installed, in the order of the candidates, has
    a version other than ["0.0"] that parses and is not below the parsed
    ["2.4.1"]; the distributions after the first installed one are not
    looked at.  It raises [InvalidVersion] exactly if the flag is set,
    that version is not ["0.0"], and it or ["2.4.1"] does not parse; with
    the flag unset, no candidate installed or the version ["0.0"] it
    returns the requirement as not satisfied. *)
Theorem get_tensorflow_requirement_outcome
    (_TF_AVAILABLE : bool) (version : string -> option string)
    (Version : Type) (parse : string -> option Version)
    (version_lt : Version -> Version -> bool) :
  (forall r,
     get_tensorflow_requirement _TF_AVAILABLE version parse version_lt
     = Returns r ->
     fst (fst r) = "tensorflow" /\ snd r = _TF_ERR_MSG)
  /\ (get_tensorflow_requirement _TF_AVAILABLE version parse version_lt
      = Returns ("tensorflow", true, _TF_ERR_MSG)
      <-> _TF_AVAILABLE = true
          /\ exists before pkg after v parsed required,
               candidates = before ++ pkg :: after
               /\ (forall p, In p before -> version p = None)
               /\ version pkg = Some v
               /\ v <> "0.0"
               /\ parse v = Some parsed
               /\ parse "2.4.1" = Some required
               /\ version_lt parsed required = false)
  /\ ((exists text,
         get_tensorflow_requirement _TF_AVAILABLE version parse version_lt
         = RaisesInvalidVersion text)
      <-> _TF_AVAILABLE = true
          /\ exists before pkg after v,
               candidates = before ++ pkg :: after
               /\ (forall p, In p before -> version p = None)
               /\ version pkg = Some v
               /\ v <> "0.0"
               /\ (parse v = None \/ parse "2.4.1" = None))
  /\ (_TF_AVAILABLE = false
      \/ (forall p, In p candidates -> version p = None)
      \/ find_tf_version version candidates "0.0" = "0.0" ->
      get_tensorflow_requirement _TF_AVAILABLE version parse version_lt
      = Returns ("tensorflow", false, _TF_ERR_MSG)).
Proof.
  split; [|split; [|split]].
  - intros r. apply tf_requirement_returns.
  - apply tf_requirement_satisfied.
  - apply tf_requirement_raises.
  - apply tf_requirement_not_satisfied.
Qed.

Example get_tensorflow_requirement_invalid_version :
  get_tensorflow_requirement true
    (fun pkg => if String.eqb pkg "tensorflow-gpu" then Some "not-a-version" else None)
    (fun text => if String.eqb text "2.4.1" then Some 241 else None)
    Nat.ltb
  = RaisesInvalidVersion "not-a-version".
Proof. reflexivity. Qed.

Example get_tensorflow_requirement_first_installed_decides :
  get_tensorflow_requirement true
    (fun pkg => if String.eqb pkg "tensorflow" then Some "2.3.0"
                else if String.eqb pkg "tensorflow-gpu" then Some "2.6.0"
                else None)
    (fun text => if String.eqb text "2.4.1" then Some 241
                 else if String.eqb text "2.3.0" then Some 230
                 else if String.eqb text "2.6.0" then Some 260
                 else None)
    Nat.ltb
  = Returns ("tensorflow", false, _TF_ERR_MSG).
Proof. reflexivity. Qed.

(** * Sub-categories of a merged registry *)

(** X20. In the registry merged from a non-empty sequence of inputs,
    [get_sub_categories] of a name that is in the category view of some
    input raises nothing; its result has an entry for the name exactly if
    every input has a definition for the name, and the entry lists, each
    once, exactly the sub-categories that the name's definition has in
    every input. *)
Theorem get_sub_categories_of_merged
    (set_iter : list string -> list string)
    (c : DatasetCategories) (cs : list DatasetCategories) (name : string) :
  set_order set_iter ->
  (exists c', In c' (c :: cs) /\ In name (current_view c')) ->
  exists merged result,
    get_merged_categories set_iter (c :: cs) = Ok merged
    /\ get_sub_categories merged (Some (Str name)) = Ok result
    /\ ((exists ks, Dict.get name result = Some ks)
        <-> forall c', In c' (c :: cs) ->
              In name (Dict.keys (init_sub_categories c')))
    /\ forall ks, Dict.get name result = Some ks ->
         NoDup ks
         /\ forall sub_cat_key, In sub_cat_key ks
              <-> forall c', In c' (c :: cs) ->
                    exists d', Dict.get name (init_sub_categories c') = Some d'
                               /\ In sub_cat_key (Dict.keys d').
Proof.
  intros Horder (c0 & Hc0 & Hname).
  assert (HIn : forall l x, In x (set_iter l) <-> In x l)
    by (intros l; apply Horder).
  eexists.
  exists (if mem_list name (set_iter (shared_categories c cs))
          then [(name, set_iter (shared_sub_categories name c cs))]
          else []).
  split; [apply (get_merged_categories_eq set_iter Horder)|].
  split.
  - unfold get_sub_categories. simpl for_each. rewrite bind_Ok_r.
    unfold sub_categories_of, mem_view.
    match goal with
    | |- context [mem_list name (iter_view ?v)] =>
        replace (mem_list name (iter_view v)) with true
    end.
    + cbn [init_sub_categories _cat_to_sub_cat truthy].
      unfold merged_sub_categories. rewrite get_tabulate.
      destruct (mem_list name (set_iter (shared_categories c cs)));
        [|reflexivity].
      unfold merged_definition. now rewrite keys_tabulate.
    + symmetry. apply mem_list_In.
      change (In name (set_iter (List.concat (map current_view (c :: cs))))).
      apply (proj2 (HIn _ _)). apply in_concat.
      exists (current_view c0). split; [now apply in_map | assumption].
  - destruct (mem_list name (set_iter (shared_categories c cs))) eqn:E.
    + apply mem_list_In in E. apply (proj1 (HIn _ _)) in E.
      pose proof (proj1 (shared_categories_In _ _ _) E) as Hall.
      simpl. rewrite String.eqb_refl. split.
      * split; [intros _; exact Hall | intros _; eexists; reflexivity].
      * intros ks [= <-]. split; [apply Horder|].
        intros sub_cat_key. rewrite HIn, shared_sub_categories_In. split.
        -- intros H c' Hc'.
           destruct (DictFacts.In_keys_get _ _ (Hall c' Hc')) as [d' Hd'].
           exists d'. split; [assumption|].
           rewrite <- (definition_of_get _ _ _ Hd'). now apply H.
        -- intros H c' Hc'. destruct (H c' Hc') as (d' & Hd' & Hsub).
           now rewrite (definition_of_get _ _ _ Hd').
    + simpl. split.
      * split; [intros [ks Hks]; discriminate Hks|].
        intros Hall. apply mem_list_not_In in E. exfalso. apply E.
        now apply HIn, shared_categories_In.
      * intros ks Hks. discriminate Hks.
Qed.

Lemma get_sub_categories_of_merged_witness :
  set_order (nodup string_dec)
  /\ exists merged result,
       get_merged_categories (nodup string_dec)
         [__post_init__ ["cat1"; "cat2"] [("cat1", [("s", ["x"; "y"]); ("t", ["u"])])];
          __post_init__ ["cat2"; "cat1"] [("cat1", [("s", ["y"; "z"])])]]
       = Ok merged
       /\ get_sub_categories merged (Some (Str "cat1")) = Ok result
       /\ exists ks, Dict.get "cat1" result = Some ks.
Proof.
  split; [exact set_order_nodup|].
  destruct (get_sub_categories_of_merged (nodup string_dec)
              (__post_init__ ["cat1"; "cat2"]
                 [("cat1", [("s", ["x"; "y"]); ("t", ["u"])])])
              [__post_init__ ["cat2"; "cat1"] [("cat1", [("s", ["y"; "z"])])]]
              "cat1" set_order_nodup)
    as (merged & result & Hm & Hres & Hentry & _).
  - eexists. split; [left; reflexivity | simpl; tauto].
  - exists merged, result. split; [exact Hm|]. split; [exact Hres|].
    apply Hentry. intros c' [<-|[<-|[]]]; simpl; tauto.
Defined.
